(** * WallSegmentation: the mask pipeline of [src/MainNew.ts]

    A shallow embedding of the numeric core of the wall/floor texturing
    program: image preprocessing, arg-max decoding of the score tensor,
    category masks, the 3x3 dilation and the order in which the overlay
    routine loads textures and draws layers. *)

From Stdlib Require Import ZArith Lia Bool String QArith Qabs.
From Stdlib Require Import Floats.SpecFloat.
From stdpp Require Import base tactics option list numbers.

Local Open Scope Z_scope.

(** ** Typed arrays and counted loops *)

(** A typed array ([Uint8Array], [Float32Array]) is a list of cells. Reading
    outside the array gives [undefined] (here [None]); writing outside the
    array is ignored. Indices are JavaScript numbers, here integers. *)
Module TypedArray.

Definition get {A} (a : list A) (i : Z) : option A :=
  if decide (0 ≤ i) then a !! Z.to_nat i else None.

Definition set {A} (a : list A) (i : Z) (v : A) : list A :=
  if decide (0 ≤ i) then <[Z.to_nat i := v]> a else a.

(** [new Uint8Array(n)]: [n] cells, all zero. *)
Definition zeros (n : nat) : list Z := replicate n 0.

End TypedArray.

Import TypedArray.

(** [for (let i = lo; i < hi; i++) s = body i s]. *)
Definition for_range {S} (lo hi : Z) (body : Z → S → S) (s : S) : S :=
  foldl (λ s i, body i s) s (seqZ lo (hi - lo)).

(** [cell === n] for a cell read from a byte array: strict equality, so
    [undefined] equals no number. *)
Definition strict_eq (cell : option Z) (n : Z) : bool :=
  match cell with
  | Some v => v =? n
  | None => false
  end.

Definition is_zero (cell : option Z) : bool := strict_eq cell 0.

(** A cell of a mask is set when it holds a nonzero byte. *)
Definition is_set (cell : option Z) : Prop :=
  ∃ v, cell = Some v ∧ v ≠ 0.

(** ** dilate *)

Definition radius : Z := 1.

Definition in_bounds (width height nx ny : Z) : bool :=
  (0 <=? nx) && (nx <? width) && (0 <=? ny) && (ny <? height).

(** The two innermost loops of [dilate]: the 3x3 block around [(x, y)]. *)
Definition dilate_block (width height x y : Z) (result : list Z) : list Z :=
  for_range (- radius) (radius + 1) (λ dy result,
    for_range (- radius) (radius + 1) (λ dx result,
      let nx := x + dx in
      let ny := y + dy in
      if in_bounds width height nx ny
      then set result (ny * width + nx) 1
      else result) result) result.

Definition dilate (mask : list Z) (width height : Z) : list Z :=
  let result := zeros (length mask) in
  for_range 0 height (λ y result,
    for_range 0 width (λ x result,
      let idx := y * width + x in
      if is_zero (get mask idx) then result
      else dilate_block width height x y result) result) result.

(** ** Category masks

    The overlay routine builds its two masks with the same loop, once with
    the literal [0] (wall) and once with the literal [3] (floor). *)

Definition buildMask (outputClasses : list Z) (target : Z) : list Z :=
  let mask := zeros (length outputClasses) in
  for_range 0 (Z.of_nat (length outputClasses)) (λ i mask,
    if strict_eq (get outputClasses i) target then set mask i 1 else mask) mask.

Definition wall_class : Z := 0.
Definition floor_class : Z := 3.

Definition wallMask (outputClasses : list Z) : list Z :=
  buildMask outputClasses wall_class.

Definition floorMask (outputClasses : list Z) : list Z :=
  buildMask outputClasses floor_class.

(** ** Floating-point cells

    Scores and pixel intensities are IEEE 754 numbers, modelled by the
    [spec_float] of the standard library. A [Float32Array] holds binary32
    values; arithmetic is done in binary64 and rounded when stored. *)

Definition neg_infinity : spec_float := S754_infinity true.

Definition f64_of_int (n : Z) : spec_float := binary_normalize 53 1024 n 0 false.

Definition f64_div (x y : spec_float) : spec_float := SFdiv 53 1024 x y.

(** Storing a number into a [Float32Array] rounds it to binary32. *)
Definition fround (x : spec_float) : spec_float :=
  match x with
  | S754_finite s m e => binary_normalize 24 128 (cond_Zopp s (Zpos m)) e s
  | _ => x
  end.

(** [cell / 255], where [undefined / 255] is [NaN]. *)
Definition div255 (cell : option Z) : spec_float :=
  match cell with
  | Some b => f64_div (f64_of_int b) (f64_of_int 255)
  | None => S754_nan
  end.

(** [a > b] on JavaScript values: [undefined] converts to [NaN], and every
    comparison with [NaN] is false. *)
Definition js_gt (a b : option spec_float) : bool :=
  match a, b with
  | Some x, Some y => SFltb y x
  | _, _ => false
  end.

(** Storing a number into a [Uint8Array] keeps it modulo 256. *)
Definition to_uint8 (n : Z) : Z := n mod 256.

(** ** preprocessImage *)

Definition preprocess_planes (width height : Z) (data : list Z) : list spec_float :=
  let floatData := replicate (Z.to_nat (3 * width * height)) (S754_zero false) in
  for_range 0 (width * height) (λ i floatData,
    let floatData := set floatData i (fround (div255 (get data (i * 4)))) in
    let floatData :=
      set floatData (i + width * height) (fround (div255 (get data (i * 4 + 1)))) in
    set floatData (i + 2 * width * height) (fround (div255 (get data (i * 4 + 2)))))
    floatData.

(** [data] is the byte buffer returned by [getImageData] after the image
    was drawn at 512x512. *)
Definition preprocessImage (data : list Z) : list spec_float :=
  preprocess_planes 512 512 data.

(** ** The arg-max decode loop of [run] *)

(** The inner loop at pixel [i]: the pair [(maxScore, maxClass)]. *)
Definition argmax_scan (outputData : list spec_float)
    (numClasses outWidth outHeight i : Z) : option spec_float * Z :=
  for_range 0 numClasses (λ c '(maxScore, maxClass),
    let score := get outputData (c * outWidth * outHeight + i) in
    if js_gt score maxScore then (score, c) else (maxScore, maxClass))
    (Some neg_infinity, 0).

Definition argmax_at (outputData : list spec_float)
    (numClasses outWidth outHeight i : Z) : Z :=
  snd (argmax_scan outputData numClasses outWidth outHeight i).

Definition decode (outputData : list spec_float)
    (numClasses outWidth outHeight : Z) : list Z :=
  let classIds := zeros (Z.to_nat (outWidth * outHeight)) in
  for_range 0 (outWidth * outHeight) (λ i classIds,
    set classIds i
      (to_uint8 (argmax_at outputData numClasses outWidth outHeight i)))
    classIds.

(** ** The asynchronous part: textures, overlay, run

    An [async] function either completes or rejects; what it drew on the
    visible canvas before rejecting stays drawn. The visible canvas is the
    list of draw calls made on it since it was last resized. *)

Record Image := { img_src : string; img_width : Z; img_height : Z }.

Inductive Source :=
| InputImage
| WallLayer (wallTexture : Image) (cleanWallMask : list Z)
| FloorLayer (floorTexture : Image) (cleanFloorMask : list Z).

Inductive DrawOp :=
| ClearRect
| DrawImage (source : Source).

Definition Canvas := list DrawOp.

Inductive Outcome (A : Type) :=
| Fulfilled (a : A)
| Rejected.
Arguments Fulfilled {A} a.
Arguments Rejected {A}.

Definition Task (A : Type) : Type := Canvas → Canvas * Outcome A.

#[export] Instance task_ret : MRet Task := λ A a ctx, (ctx, Fulfilled a).

#[export] Instance task_bind : MBind Task := λ A B k t ctx,
  match t ctx with
  | (ctx', Fulfilled a) => k a ctx'
  | (ctx', Rejected) => (ctx', Rejected)
  end.

(** [await p] for a promise that has settled with outcome [p]. *)
Definition await {A} (p : Outcome A) : Task A := λ ctx, (ctx, p).

(** A draw call on the visible canvas. *)
Definition draw (op : DrawOp) : Task unit := λ ctx, (ctx ++ [op], Fulfilled tt).

(** [canvas.width = ...; canvas.height = ...]: resizing clears the canvas. *)
Definition resize : Task unit := λ _, ([], Fulfilled tt).

(** The output of the inference engine, of shape
    [1, numClasses, outHeight, outWidth]. *)
Record Tensor := {
  numClasses : Z;
  outHeight : Z;
  outWidth : Z;
  outputData : list spec_float
}.

(** What the browser and the inference engine do in one run: whether the
    WebAssembly backend exists, whether the session is created, what the
    session returns for an input tensor, and how each texture load ends. *)
Record World := {
  wasm_available : bool;
  create_session : Outcome unit;
  session_run : list spec_float → Outcome Tensor;
  load_image : string → Outcome Image
}.

Section Run.
Context (world : World).

(** [null] when the backend is missing; a failed session creation is
    rethrown. *)
Definition loadModel : Task (option unit) :=
  if negb (wasm_available world) then mret None
  else session ← await (create_session world); mret (Some session).

Definition loadTexture (src : string) : Task Image :=
  await (load_image world src).

Definition drawSegmentationOverlay (outputClasses : list Z)
    (maskWidth maskHeight : Z) : Task unit :=
  wallTexture ← loadTexture "/Textures/Floor.webp";
  floorTexture ← loadTexture "/Textures/Floor1.jpg";
  let cleanWallMask := dilate (wallMask outputClasses) maskWidth maskHeight in
  let cleanFloorMask := dilate (floorMask outputClasses) maskWidth maskHeight in
  draw (DrawImage (WallLayer wallTexture cleanWallMask));;
  draw (DrawImage (FloorLayer floorTexture cleanFloorMask)).

Definition run (data : list Z) : Task unit :=
  session ← loadModel;
  match session with
  | None => mret tt
  | Some _ =>
    resize;;
    draw ClearRect;;
    draw (DrawImage InputImage);;
    resize;;
    draw (DrawImage InputImage);;
    let inputTensorData := preprocessImage data in
    output ← await (session_run world inputTensorData);
    let classIds :=
      decode (outputData output) (numClasses output)
        (outWidth output) (outHeight output) in
    drawSegmentationOverlay classIds (outWidth output) (outHeight output)
  end.

End Run.

(** The wall overlay is on the canvas when some draw call put a wall layer
    there; likewise for the floor. *)
Definition is_wall_layer (op : DrawOp) : bool :=
  match op with
  | DrawImage (WallLayer _ _) => true
  | _ => false
  end.

Definition is_floor_layer (op : DrawOp) : bool :=
  match op with
  | DrawImage (FloorLayer _ _) => true
  | _ => false
  end.

Definition has_wall_overlay (ctx : Canvas) : bool := existsb is_wall_layer ctx.
Definition has_floor_overlay (ctx : Canvas) : bool := existsb is_floor_layer ctx.

Definition completes {A} (r : Canvas * Outcome A) : bool :=
  match r with
  | (_, Fulfilled _) => true
  | (_, Rejected) => false
  end.

(** ** Scenario data *)

Definition center_block_grid : list Z :=
  [2;2;2;2;
   2;0;0;2;
   2;0;0;2;
   2;2;2;2].

Definition sample_image (src : string) : Image :=
  {| img_src := src; img_width := 64; img_height := 64 |}.

(** An engine output over a 2x1 grid with four classes: the first pixel
    scores highest for class 0 (wall), the second for class 3 (floor). *)
Definition wall_then_floor : Tensor := {|
  numClasses := 4; outHeight := 1; outWidth := 2;
  outputData := [S754_finite false 1 0; S754_zero false;
                 S754_zero false; S754_zero false;
                 S754_zero false; S754_zero false;
                 S754_zero false; S754_finite false 1 0]
|}.

(** A run in which everything works except the floor texture. *)
Definition floor_texture_fails : World := {|
  wasm_available := true;
  create_session := Fulfilled tt;
  session_run := λ _, Fulfilled wall_then_floor;
  load_image := λ src,
    if String.eqb src "/Textures/Floor.webp"
    then Fulfilled (sample_image src) else Rejected
|}.

(** The rational value of a finite float. *)
Definition SF2Q (x : spec_float) : option Q :=
  match x with
  | S754_zero _ => Some 0%Q
  | S754_finite s m e => Some (inject_Z (cond_Zopp s (Zpos m)) * Qpower 2 e)%Q
  | _ => None
  end.

(** ** The indices that [dilate] writes

    [dilate] only ever stores the value 1, so its result is fixed by the
    list of indices it stores to, in loop order. *)

Definition set_all (result : list Z) (ks : list Z) : list Z :=
  foldl (λ result k, set result k 1) result ks.

Definition block_writes (width height x y : Z) : list Z :=
  dy ← seqZ (- radius) (radius + 1 - - radius);
  dx ← seqZ (- radius) (radius + 1 - - radius);
  if in_bounds width height (x + dx) (y + dy)
  then [(y + dy) * width + (x + dx)] else [].

Definition mask_writes (mask : list Z) (width height : Z) : list Z :=
  y ← seqZ 0 (height - 0);
  x ← seqZ 0 (width - 0);
  if is_zero (get mask (y * width + x)) then [] else block_writes width height x y.

(** [(x', y')] is a set pixel of the mask within Chebyshev distance
    [radius] of [(x, y)]. *)
Definition set_neighbour (mask : list Z) (width height x y x' y' : Z) : Prop :=
  0 ≤ x' < width ∧ 0 ≤ y' < height ∧
  Z.abs (x - x') ≤ radius ∧ Z.abs (y - y') ≤ radius ∧
  is_set (get mask (y' * width + x')).

(** [a >= b] and [a <= b] on JavaScript values, with the same treatment of
    [undefined] and [NaN] as [js_gt]. *)
Definition js_ge (a b : option spec_float) : bool :=
  match a, b with
  | Some x, Some y => SFleb y x
  | _, _ => false
  end.

Definition js_le (a b : option spec_float) : bool := js_ge b a.

(** A cell that holds a number other than [NaN]. *)
Definition is_number (cell : option spec_float) : Prop :=
  ∃ x, cell = Some x ∧ x ≠ S754_nan.

(** The score of class [c] at pixel [i], as the decode loop reads it. *)
Definition score_at (outputData : list spec_float)
    (outWidth outHeight i c : Z) : option spec_float :=
  get outputData (c * outWidth * outHeight + i).

(** The invariant of the inner decode loop before class [n] is looked at:
    [maxScore] is a number [m] that no score seen so far exceeds, and either
    nothing has been selected yet ([maxClass] is still 0 and [m] is
    [-Infinity]) or [maxClass] is a class seen so far whose score is [m] and
    every earlier class has a score that is not at least [m]. *)
Definition scan_inv (outputData : list spec_float) (outWidth outHeight i : Z)
    (n : Z) (st : option spec_float * Z) : Prop :=
  ∃ m, st.1 = Some m ∧
    (∀ c, 0 ≤ c < n →
       js_gt (score_at outputData outWidth outHeight i c) (Some m) = false) ∧
    ((st.2 = 0 ∧ m = neg_infinity) ∨
     (0 ≤ st.2 < n ∧
      score_at outputData outWidth outHeight i st.2 = Some m ∧
      ∀ c, 0 ≤ c < st.2 →
        js_ge (score_at outputData outWidth outHeight i c) (Some m) = false)).

(** A small score tensor: two classes over a 2x1 grid, with a tie at the
    first pixel and a [NaN] at the second. *)
Definition tie_scores : list spec_float :=
  [S754_finite false 1 0; S754_zero false; S754_finite false 1 0; S754_nan].

(** [byte / 255] as a rational number, and the distance allowed between it
    and the stored binary32 value: half a unit in the last place of the
    numbers just below 1. *)
Definition exact_ratio (b : Z) : Q := (b # 255)%Q.

Definition half_ulp : Q := (1 # 33554432)%Q.

Definition normalized_ok (b : Z) : bool :=
  match SF2Q (fround (div255 (Some b))) with
  | Some q =>
      Qle_bool 0 q && Qle_bool q 1
      && Qle_bool (Qabs (q - exact_ratio b)) half_ulp
  | None => false
  end.

(** The byte buffer of a 512x512 RGBA image whose bytes are all zero. *)
Definition black_image : list Z := replicate (Z.to_nat (4 * 512 * 512)) 0.

(** ** The raster loops of the overlay routine *)

(** [if (mask[idx])]: a cell is truthy when it holds a nonzero number;
    [undefined] is falsy. *)
Definition truthy (cell : option Z) : bool :=
  match cell with
  | Some v => negb (v =? 0)
  | None => false
  end.

Definition f64_mul (x y : spec_float) : spec_float := SFmul 53 1024 x y.

(** The arguments of one [fillRect] call. *)
Record Rect := {
  rect_x : spec_float;
  rect_y : spec_float;
  rect_w : spec_float;
  rect_h : spec_float
}.

(** [fillRect(x * scaleX, y * scaleY, scaleX, scaleY)]. *)
Definition cell_rect (scaleX scaleY : spec_float) (cell : Z * Z) : Rect :=
  {| rect_x := f64_mul (f64_of_int cell.1) scaleX;
     rect_y := f64_mul (f64_of_int cell.2) scaleY;
     rect_w := scaleX;
     rect_h := scaleY |}.

(** The wall loop: the [fillRect] calls made on the offscreen canvas, in
    the order they are made. *)
Definition wallFillRects (cleanWallMask : list Z)
    (maskWidth maskHeight canvasWidth canvasHeight : Z) : list Rect :=
  let scaleX := f64_div (f64_of_int canvasWidth) (f64_of_int maskWidth) in
  let scaleY := f64_div (f64_of_int canvasHeight) (f64_of_int maskHeight) in
  for_range 0 maskHeight (λ y calls,
    for_range 0 maskWidth (λ x calls,
      let idx := y * maskWidth + x in
      if truthy (get cleanWallMask idx)
      then calls ++ [cell_rect scaleX scaleY (x, y)]
      else calls) calls) [].

(** [createImageData(sw, sh)]: throws (here [None]) when a side is zero,
    and otherwise gives transparent black, four bytes per pixel. *)
Definition createImageData (sw sh : Z) : option (list Z) :=
  if (sw =? 0) || (sh =? 0) then None
  else Some (replicate (Z.to_nat (4 * Z.abs sw * Z.abs sh)) 0).

(** The floor loop: the bytes of the image that serves as alpha mask. *)
Definition floorAlphaData (cleanFloorMask : list Z)
    (maskWidth maskHeight : Z) : option (list Z) :=
  data ← createImageData maskWidth maskHeight;
  Some (for_range 0 (Z.of_nat (length cleanFloorMask)) (λ i data,
          let v := if truthy (get cleanFloorMask i) then 255 else 0 in
          set data (i * 4 + 3) v) data).

(** ** Further notions used in the statements *)

(** The mask cells for which the wall loop calls [fillRect], in loop
    order. *)
Definition filled_cells (cleanWallMask : list Z)
    (maskWidth maskHeight : Z) : list (Z * Z) :=
  y ← seqZ 0 (maskHeight - 0);
  x ← seqZ 0 (maskWidth - 0);
  if truthy (get cleanWallMask (y * maskWidth + x)) then [(x, y)] else [].

(** [(x', y')] is a set pixel of the mask within Chebyshev distance [r]
    of [(x, y)]. *)
Definition set_within (r : Z) (mask : list Z) (width height x y x' y' : Z) : Prop :=
  0 ≤ x' < width ∧ 0 ≤ y' < height ∧
  Z.abs (x - x') ≤ r ∧ Z.abs (y - y') ≤ r ∧
  is_set (get mask (y' * width + x')).

(** [(x', y')] is a pixel of the grid next to [(x, y)], itself included. *)
Definition adjacent (width height x y x' y' : Z) : Prop :=
  0 ≤ x' < width ∧ 0 ≤ y' < height ∧
  Z.abs (x - x') ≤ radius ∧ Z.abs (y - y') ≤ radius.

(** The union of two masks, cell by cell. *)
Definition mask_or (mask1 mask2 : list Z) : list Z := zip_with Z.lor mask1 mask2.

(** The loop state of the decode scan never holds [NaN]: [maxScore] is
    [-Infinity] with [maxClass] still 0, or a number above [-Infinity]. *)
Definition scan_real (st : option spec_float * Z) : Prop :=
  ∃ m, st.1 = Some m ∧
    ((m = neg_infinity ∧ st.2 = 0) ∨ SFltb neg_infinity m = true).

(** The binary32 number stored for a colour byte. *)
Definition normalize_byte (b : Z) : spec_float := fround (div255 (Some b)).

(** Worlds for the failure paths of a run. *)
Definition no_backend : World := {|
  wasm_available := false;
  create_session := Fulfilled tt;
  session_run := λ _, Fulfilled wall_then_floor;
  load_image := λ src, Fulfilled (sample_image src)
|}.

Definition session_fails : World := {|
  wasm_available := true;
  create_session := Rejected;
  session_run := λ _, Fulfilled wall_then_floor;
  load_image := λ src, Fulfilled (sample_image src)
|}.

Definition inference_fails : World := {|
  wasm_available := true;
  create_session := Fulfilled tt;
  session_run := λ _, Rejected;
  load_image := λ src, Fulfilled (sample_image src)
|}.

Definition wall_texture_fails : World := {|
  wasm_available := true;
  create_session := Fulfilled tt;
  session_run := λ _, Fulfilled wall_then_floor;
  load_image := λ src,
    if String.eqb src "/Textures/Floor.webp"
    then Rejected else Fulfilled (sample_image src)
|}.

(** ** First checks *)

Example dilate_row5 : dilate [0;0;1;0;0] 5 1 = [0;1;1;1;0].
Proof. reflexivity. Qed.

Example dilate_3x3_corner :
  dilate [1;0;0; 0;0;0; 0;0;0] 3 3 = [1;1;0; 1;1;0; 0;0;0].
Proof. reflexivity. Qed.

Example wallMask_center : wallMask center_block_grid =
  [0;0;0;0; 0;1;1;0; 0;1;1;0; 0;0;0;0].
Proof. reflexivity. Qed.

(** ** Typed-array and loop lemmas *)

Section ArrayFacts.
Context {A : Type}.
Implicit Types (a : list A) (i k : Z) (v : A).

Lemma length_set a i v : length (set a i v) = length a.
Proof. unfold set. case_decide; [apply length_insert | done]. Qed.

Lemma get_set_eq a i v :
  0 ≤ i < Z.of_nat (length a) → get (set a i v) i = Some v.
Proof.
  intros Hi. unfold get, set. rewrite !decide_True by lia.
  apply list_lookup_insert_eq. lia.
Qed.

Lemma get_set_ne a i k v : i ≠ k → get (set a i v) k = get a k.
Proof.
  intros Hne. unfold get, set.
  destruct (decide (0 ≤ k)) as [Hk|Hk]; [|done].
  destruct (decide (0 ≤ i)) as [Hi|Hi]; [|done].
  apply list_lookup_insert_ne. lia.
Qed.

Lemma get_Some_range a i v : get a i = Some v → 0 ≤ i < Z.of_nat (length a).
Proof.
  unfold get. case_decide; [|done].
  intros Hl%lookup_lt_Some. lia.
Qed.

Lemma get_in_range a i : 0 ≤ i < Z.of_nat (length a) → is_Some (get a i).
Proof.
  intros Hi. unfold get. rewrite decide_True by lia.
  apply lookup_lt_is_Some. lia.
Qed.

Lemma get_out_of_range a i : ¬ 0 ≤ i < Z.of_nat (length a) → get a i = None.
Proof.
  intros Hi. destruct (get a i) as [v|] eqn:E; [|done].
  apply get_Some_range in E. lia.
Qed.

End ArrayFacts.

Lemma get_replicate {A} (n : nat) (x : A) i :
  0 ≤ i < Z.of_nat n → get (replicate n x) i = Some x.
Proof.
  intros Hi. unfold get. rewrite decide_True by lia.
  apply lookup_replicate_2. lia.
Qed.

Section LoopFacts.
Context {S : Type}.
Implicit Types (body : Z → S → S) (s : S).

Lemma for_range_done lo hi body s : hi ≤ lo → for_range lo hi body s = s.
Proof.
  intros Hle. unfold for_range. by rewrite seqZ_nil by lia.
Qed.

Lemma for_range_step lo hi body s :
  lo ≤ hi →
  for_range lo (hi + 1) body s = body hi (for_range lo hi body s).
Proof.
  intros Hle. unfold for_range.
  replace (hi + 1 - lo) with (Z.of_nat (Datatypes.S (Z.to_nat (hi - lo)))) by lia.
  rewrite seqZ_S, foldl_app. simpl.
  replace (lo + Z.of_nat (Z.to_nat (hi - lo))) with hi by lia.
  by replace (Z.of_nat (Z.to_nat (hi - lo))) with (hi - lo) by lia.
Qed.

(** The invariant rule for a counted loop. *)
Lemma for_range_inv (P : Z → S → Prop) lo hi body s :
  lo ≤ hi →
  P lo s →
  (∀ i s, lo ≤ i < hi → P i s → P (i + 1) (body i s)) →
  P hi (for_range lo hi body s).
Proof.
  intros Hle H0 Hstep.
  assert (∀ n : nat, lo + Z.of_nat n ≤ hi →
            P (lo + Z.of_nat n) (for_range lo (lo + Z.of_nat n) body s)) as Hn.
  { induction n as [|n IH]; intros Hb.
    - rewrite Z.add_0_r. by rewrite for_range_done by lia.
    - replace (lo + Z.of_nat (Datatypes.S n)) with (lo + Z.of_nat n + 1) by lia.
      rewrite for_range_step by lia.
      apply Hstep; [lia|]. apply IH. lia. }
  specialize (Hn (Z.to_nat (hi - lo))).
  replace (lo + Z.of_nat (Z.to_nat (hi - lo))) with hi in Hn by lia.
  apply Hn. lia.
Qed.

Lemma foldl_bind_list {B C} (f : S → C → S) (g : B → list C) (l : list B) s :
  foldl f s (l ≫= g) = foldl (λ s b, foldl f s (g b)) s l.
Proof.
  revert s. induction l as [|b l IH]; intros s; [done|].
  simpl. rewrite foldl_app. apply IH.
Qed.

Lemma foldl_agree {B} (f g : S → B → S) (l : list B) s :
  (∀ s b, b ∈ l → f s b = g s b) → foldl f s l = foldl g s l.
Proof.
  revert s. induction l as [|b l IH]; intros s Hfg; [done|].
  simpl. rewrite Hfg by left. apply IH.
  intros s' b' Hb'. apply Hfg. by right.
Qed.

End LoopFacts.

(** ** Dilation: from the loops to the written indices *)

Lemma length_set_all result ks : length (set_all result ks) = length result.
Proof.
  unfold set_all. revert result.
  induction ks as [|k ks IH]; intros result; [done|].
  simpl. rewrite IH. apply length_set.
Qed.

Lemma set_all_snoc result ks k :
  set_all result (ks ++ [k]) = set (set_all result ks) k 1.
Proof. unfold set_all. by rewrite foldl_app. Qed.

Lemma get_set_all_elem result ks k :
  k ∈ ks → 0 ≤ k < Z.of_nat (length result) →
  get (set_all result ks) k = Some 1.
Proof.
  induction ks as [|k' ks IH] using rev_ind; intros Hin Hk.
  - by apply elem_of_nil in Hin.
  - rewrite set_all_snoc.
    destruct (decide (k' = k)) as [->|Hne].
    + apply get_set_eq. by rewrite length_set_all.
    + rewrite get_set_ne by done.
      apply IH; [|done].
      apply elem_of_app in Hin as [Hin|Hin]; [done|].
      apply list_elem_of_singleton in Hin. congruence.
Qed.

Lemma get_set_all_not_elem result ks k :
  k ∉ ks → get (set_all result ks) k = get result k.
Proof.
  induction ks as [|k' ks IH] using rev_ind; intros Hin; [done|].
  rewrite set_all_snoc.
  rewrite not_elem_of_app in Hin. destruct Hin as [Hin Hk'].
  rewrite get_set_ne; [by apply IH|].
  intros ->. apply Hk'. by apply list_elem_of_singleton.
Qed.

Lemma dilate_block_writes width height x y result :
  dilate_block width height x y result
  = set_all result (block_writes width height x y).
Proof.
  unfold dilate_block, block_writes, set_all, for_range.
  rewrite foldl_bind_list. apply foldl_agree. intros r dy _.
  rewrite foldl_bind_list. apply foldl_agree. intros r' dx _.
  by destruct (in_bounds _ _ _ _).
Qed.

Lemma dilate_writes mask width height :
  dilate mask width height
  = set_all (zeros (length mask)) (mask_writes mask width height).
Proof.
  unfold dilate, mask_writes, set_all, for_range.
  rewrite foldl_bind_list. apply foldl_agree. intros r y _.
  rewrite foldl_bind_list. apply foldl_agree. intros r' x _.
  destruct (is_zero _); [done|]. apply dilate_block_writes.
Qed.

Lemma length_dilate mask width height :
  length (dilate mask width height) = length mask.
Proof. rewrite dilate_writes, length_set_all. apply length_replicate. Qed.

Lemma get_dilate mask width height k :
  0 ≤ k < Z.of_nat (length mask) →
  get (dilate mask width height) k
  = Some (if decide (k ∈ mask_writes mask width height) then 1 else 0).
Proof.
  intros Hk. rewrite dilate_writes. case_decide as Hin.
  - apply get_set_all_elem; [done|]. unfold zeros. by rewrite length_replicate.
  - rewrite get_set_all_not_elem by done. by apply get_replicate.
Qed.

Lemma elem_of_block_writes width height x y k :
  k ∈ block_writes width height x y ↔
  ∃ dx dy, - radius ≤ dx ≤ radius ∧ - radius ≤ dy ≤ radius ∧
    in_bounds width height (x + dx) (y + dy) = true ∧
    k = (y + dy) * width + (x + dx).
Proof.
  unfold block_writes. rewrite list_elem_of_bind. split.
  - intros (dy & Hk & Hdy). apply list_elem_of_bind in Hk as (dx & Hk & Hdx).
    apply elem_of_seqZ in Hdy, Hdx.
    destruct (in_bounds _ _ _ _) eqn:Hb; [|by apply elem_of_nil in Hk].
    apply list_elem_of_singleton in Hk.
    exists dx, dy. repeat split; try done; lia.
  - intros (dx & dy & Hdx & Hdy & Hb & ->).
    exists dy. split; [|apply elem_of_seqZ; lia].
    apply list_elem_of_bind. exists dx. split; [|apply elem_of_seqZ; lia].
    rewrite Hb. by apply list_elem_of_singleton.
Qed.

Lemma elem_of_mask_writes mask width height k :
  k ∈ mask_writes mask width height ↔
  ∃ x y, 0 ≤ x < width ∧ 0 ≤ y < height ∧
    is_zero (get mask (y * width + x)) = false ∧
    k ∈ block_writes width height x y.
Proof.
  unfold mask_writes. rewrite list_elem_of_bind. split.
  - intros (y & Hk & Hy). apply list_elem_of_bind in Hk as (x & Hk & Hx).
    apply elem_of_seqZ in Hy, Hx.
    destruct (is_zero _) eqn:Hz; [by apply elem_of_nil in Hk|].
    exists x, y. repeat split; try done; lia.
  - intros (x & y & Hx & Hy & Hz & Hk).
    exists y. split; [|apply elem_of_seqZ; lia].
    apply list_elem_of_bind. exists x. split; [|apply elem_of_seqZ; lia].
    by rewrite Hz.
Qed.

(** ** Dilation: pixels and their neighbours *)

Lemma in_bounds_spec width height nx ny :
  in_bounds width height nx ny = true ↔ 0 ≤ nx < width ∧ 0 ≤ ny < height.
Proof. unfold in_bounds. rewrite !andb_true_iff. lia. Qed.

Lemma cell_index_range width height x y :
  0 ≤ x < width → 0 ≤ y < height → 0 ≤ y * width + x < width * height.
Proof. intros Hx Hy. nia. Qed.

Lemma cell_index_inj width x y x' y' :
  0 ≤ x < width → 0 ≤ x' < width →
  y * width + x = y' * width + x' → x = x' ∧ y = y'.
Proof. intros Hx Hx' Heq. assert (y = y') by nia. subst. lia. Qed.

Lemma is_zero_false_iff mask k :
  0 ≤ k < Z.of_nat (length mask) →
  is_zero (get mask k) = false ↔ is_set (get mask k).
Proof.
  intros Hk. destruct (get_in_range mask k Hk) as [v Hv].
  rewrite Hv. unfold is_zero, is_set, strict_eq. split.
  - intros Hz. exists v. split; [done|]. lia.
  - intros (v' & [= <-] & Hne). lia.
Qed.

Lemma is_set_not_zero cell : is_set cell → is_zero cell = false.
Proof. intros (v & -> & Hv). unfold is_zero, strict_eq. lia. Qed.

Lemma elem_of_mask_writes_cell mask width height x y :
  Z.of_nat (length mask) = width * height →
  0 ≤ x < width → 0 ≤ y < height →
  y * width + x ∈ mask_writes mask width height ↔
  ∃ x' y', set_neighbour mask width height x y x' y'.
Proof.
  intros Hlen Hx Hy. rewrite elem_of_mask_writes. unfold set_neighbour, radius.
  split.
  - intros (x' & y' & Hx' & Hy' & Hz & Hk).
    apply elem_of_block_writes in Hk as (dx & dy & Hdx & Hdy & Hb & Hk).
    unfold radius in *. apply in_bounds_spec in Hb as [Hnx Hny].
    apply cell_index_inj in Hk as [-> ->]; [|done..].
    exists x', y'. repeat split; try lia.
    apply is_zero_false_iff; [|done].
    rewrite Hlen. by apply cell_index_range.
  - intros (x' & y' & Hx' & Hy' & Hdx & Hdy & Hset).
    exists x', y'. repeat split; try lia.
    + by apply is_set_not_zero.
    + apply elem_of_block_writes. exists (x - x'), (y - y'). unfold radius.
      repeat split; try lia.
      apply in_bounds_spec. lia.
Qed.

(** A set pixel is written by its own 3x3 block. *)
Lemma set_cell_written mask width height x y :
  0 ≤ x < width → 0 ≤ y < height →
  is_zero (get mask (y * width + x)) = false →
  y * width + x ∈ mask_writes mask width height.
Proof.
  intros Hx Hy Hz. apply elem_of_mask_writes.
  exists x, y. repeat split; try lia; [done|].
  apply elem_of_block_writes. exists 0, 0. unfold radius.
  repeat split; try lia.
  apply in_bounds_spec. lia.
Qed.

Lemma index_as_cell width height k :
  0 ≤ width → 0 ≤ k < width * height →
  ∃ x y, 0 ≤ x < width ∧ 0 ≤ y < height ∧ k = y * width + x.
Proof.
  intros Hw Hk.
  assert (0 < width) as Hpos.
  { destruct (decide (width = 0)) as [->|Hne]; lia. }
  exists (k mod width), (k / width).
  pose proof (Z.mod_pos_bound k width Hpos) as Hmod.
  pose proof (Z.div_mod k width ltac:(lia)) as Hdm.
  repeat split; try lia.
  - apply Z.div_pos; lia.
  - apply Z.div_lt_upper_bound; lia.
Qed.

Lemma mask_writes_mono mask1 mask2 width height k :
  length mask1 = length mask2 →
  (∀ i, is_set (get mask1 i) → is_set (get mask2 i)) →
  k ∈ mask_writes mask1 width height → k ∈ mask_writes mask2 width height.
Proof.
  intros Hlen Hsub. rewrite !elem_of_mask_writes.
  intros (x & y & Hx & Hy & Hz & Hk).
  exists x, y. split; [done|]. split; [done|]. split; [|done].
  set (idx := y * width + x) in *.
  destruct (decide (0 ≤ idx < Z.of_nat (length mask1))) as [Hin|Hout].
  - apply is_set_not_zero, Hsub. by apply is_zero_false_iff.
  - rewrite get_out_of_range; [done|]. by rewrite <- Hlen.
Qed.

(** ** Dilation: the properties *)

(** C1. On a [width] x [height] mask, the output pixel at [(x, y)] is 1
    exactly when some in-bounds pixel at Chebyshev distance at most 1 is
    set in the input, and it is 0 otherwise: neighbours outside the grid do
    not count, nothing wraps around, and one pass reaches no further than
    the radius. *)
Theorem dilate_chebyshev mask width height x y :
  1 ≤ width → 1 ≤ height →
  Z.of_nat (length mask) = width * height →
  0 ≤ x < width → 0 ≤ y < height →
  (get (dilate mask width height) (y * width + x) = Some 1 ↔
     ∃ x' y', set_neighbour mask width height x y x' y') ∧
  (get (dilate mask width height) (y * width + x) = Some 0 ↔
     ¬ ∃ x' y', set_neighbour mask width height x y x' y').
Proof.
  intros Hw Hh Hlen Hx Hy.
  pose proof (cell_index_range width height x y Hx Hy) as Hidx.
  rewrite get_dilate by lia.
  rewrite <- (elem_of_mask_writes_cell mask width height x y Hlen Hx Hy).
  case_decide as Hin; split; split; try done; intros; congruence.
Qed.

Lemma dilate_chebyshev_witness :
  (get (dilate [0;0;1;0;0] 5 1) (0 * 5 + 1) = Some 1 ↔
     ∃ x' y', set_neighbour [0;0;1;0;0] 5 1 1 0 x' y') ∧
  (get (dilate [0;0;1;0;0] 5 1) (0 * 5 + 1) = Some 0 ↔
     ¬ ∃ x' y', set_neighbour [0;0;1;0;0] 5 1 1 0 x' y').
Proof. apply (dilate_chebyshev [0;0;1;0;0] 5 1 1 0); simpl; lia. Defined.

(** C5. Dilation is inflationary: a cell that holds a nonzero byte in the
    input holds 1 in the output, and on a 0/1 mask the output cell is never
    below the input cell. *)
Theorem dilate_inflationary mask width height i v :
  0 ≤ width → 0 ≤ height →
  Z.of_nat (length mask) = width * height →
  get mask i = Some v →
  ∃ v', get (dilate mask width height) i = Some v' ∧
        (v ≠ 0 → v' = 1) ∧ (0 ≤ v ≤ 1 → v ≤ v').
Proof.
  intros Hw Hh Hlen Hv.
  pose proof (get_Some_range _ _ _ Hv) as Hi.
  rewrite get_dilate by done.
  destruct (index_as_cell width height i Hw ltac:(lia)) as (x & y & Hx & Hy & ->).
  case_decide as Hin.
  - exists 1. split; [done|]. split; [done|lia].
  - exists 0. split; [done|].
    assert (v = 0) as ->; [|split; [done|lia]].
    destruct (decide (v = 0)) as [|Hne]; [done|].
    exfalso. apply Hin, set_cell_written; [done..|].
    rewrite Hv. unfold is_zero, strict_eq. lia.
Qed.

Lemma dilate_inflationary_witness :
  ∃ v', get (dilate [0;1;0;0] 2 2) 1 = Some v' ∧
        (1 ≠ 0 → v' = 1) ∧ (0 ≤ 1 ≤ 1 → 1 ≤ v').
Proof.
  apply (dilate_inflationary [0;1;0;0] 2 2 1 1); [lia | lia | reflexivity | reflexivity].
Defined.

(** C10. Dilation is monotone for inclusion of masks of the same length,
    every cell of its output is 0 or 1, and the output is as long as the
    input. A cell counts as set when its byte is nonzero. *)
Theorem dilate_monotone_boolean mask1 mask2 width height :
  length mask1 = length mask2 →
  (∀ i, is_set (get mask1 i) → is_set (get mask2 i)) →
  (∀ k, is_set (get (dilate mask1 width height) k) →
        is_set (get (dilate mask2 width height) k)) ∧
  (∀ k v, get (dilate mask1 width height) k = Some v → v = 0 ∨ v = 1) ∧
  length (dilate mask1 width height) = length mask1.
Proof.
  intros Hlen Hsub. split; [|split].
  - intros k (v & Hv & Hne).
    pose proof (get_Some_range _ _ _ Hv) as Hk.
    rewrite length_dilate in Hk.
    rewrite get_dilate in Hv by done.
    rewrite get_dilate by (by rewrite <- Hlen).
    case_decide as Hin; [|congruence].
    rewrite decide_True by eauto using mask_writes_mono.
    exists 1. split; [done|lia].
  - intros k v Hv.
    pose proof (get_Some_range _ _ _ Hv) as Hk.
    rewrite length_dilate in Hk.
    rewrite get_dilate in Hv by done.
    case_decide; injection Hv as <-; auto.
  - apply length_dilate.
Qed.

Lemma dilate_monotone_boolean_witness :
  (∀ k, is_set (get (dilate [0;7;0;0] 4 1) k) →
        is_set (get (dilate [0;1;0;1] 4 1) k)) ∧
  (∀ k v, get (dilate [0;7;0;0] 4 1) k = Some v → v = 0 ∨ v = 1) ∧
  length (dilate [0;7;0;0] 4 1) = length [0;7;0;0].
Proof.
  apply (dilate_monotone_boolean [0;7;0;0] [0;1;0;1] 4 1); [reflexivity|].
  intros i (v & Hv & Hne).
  assert (i = 1) as ->.
  { unfold get in Hv. case_decide; [|done].
    destruct (Z.to_nat i) as [|[|[|[|[|n]]]]] eqn:E; simpl in Hv;
      try done; injection Hv as <-; try lia. }
  exists 1. split; [reflexivity|lia].
Defined.

(** C7. Scenario A: on the 4x4 grid whose centre 2x2 block is class 0 and
    whose other cells are class 2, the wall mask has exactly the four
    centre pixels set, and its dilation has all sixteen pixels set. *)
Theorem scenario_center_block :
  wallMask center_block_grid = [0;0;0;0; 0;1;1;0; 0;1;1;0; 0;0;0;0] ∧
  dilate (wallMask center_block_grid) 4 4 = replicate 16 1.
Proof. split; reflexivity. Qed.

(** C8. Dilation is not idempotent: on the 3x1 mask with only its first
    pixel set, a second pass sets one more pixel than the first. *)
Theorem dilate_not_idempotent :
  ∃ mask width height,
    dilate (dilate mask width height) width height ≠ dilate mask width height.
Proof. exists [1;0;0], 3, 1. discriminate. Qed.

(** ** Category masks: the properties *)

Lemma get_set_same {A} (a : list A) i v :
  get (set a i v) i = (λ _, v) <$> get a i.
Proof.
  destruct (decide (0 ≤ i < Z.of_nat (length a))) as [Hi|Hi].
  - rewrite get_set_eq by done. by destruct (get_in_range a i Hi) as [w ->].
  - rewrite !get_out_of_range; [done..|]. by rewrite length_set.
Qed.

(** A loop whose iteration [i] touches cell [i] only. *)
Lemma for_range_cellwise {A} (body : Z → list A → list A) (g : Z → A → A) n a :
  (∀ i a, length (body i a) = length a) →
  (∀ i k a, k ≠ i → get (body i a) k = get a k) →
  (∀ i a, get (body i a) i = g i <$> get a i) →
  0 ≤ n →
  length (for_range 0 n body a) = length a ∧
  ∀ k, get (for_range 0 n body a) k
       = if decide (0 ≤ k < n) then g k <$> get a k else get a k.
Proof.
  intros Hlen Hne Heq Hn.
  pose proof (for_range_inv (λ i s, length s = length a ∧
    ∀ k, get s k = if decide (0 ≤ k < i) then g k <$> get a k else get a k)
    0 n body a Hn) as Hinv.
  simpl in Hinv. apply Hinv; clear Hinv.
  - split; [done|]. intros k. by rewrite decide_False by lia.
  - intros i s Hi [IHl IHg]. split; [by rewrite Hlen|].
    intros k. destruct (decide (k = i)) as [->|Hk].
    + rewrite Heq, IHg. by rewrite decide_False, decide_True by lia.
    + rewrite Hne, IHg by done.
      destruct (decide (0 ≤ k < i)); [by rewrite decide_True by lia|].
      by rewrite decide_False by lia.
Qed.

Lemma length_buildMask outputClasses target :
  length (buildMask outputClasses target) = length outputClasses.
Proof.
  unfold buildMask.
  edestruct (for_range_cellwise
    (λ i mask, if strict_eq (get outputClasses i) target
               then set mask i 1 else mask)
    (λ i v, if strict_eq (get outputClasses i) target then 1 else v)) as [-> _];
    [ intros i a; destruct (strict_eq _ _); [apply length_set|done]
    | intros i k a Hk; destruct (strict_eq _ _); [by apply get_set_ne|done]
    | intros i a; destruct (strict_eq _ _);
        [apply get_set_same | by destruct (get a i)]
    | lia
    | apply length_replicate ].
Qed.

Lemma get_buildMask outputClasses target i :
  0 ≤ i < Z.of_nat (length outputClasses) →
  get (buildMask outputClasses target) i
  = Some (if strict_eq (get outputClasses i) target then 1 else 0).
Proof.
  intros Hi. unfold buildMask.
  edestruct (for_range_cellwise
    (λ i mask, if strict_eq (get outputClasses i) target
               then set mask i 1 else mask)
    (λ i v, if strict_eq (get outputClasses i) target then 1 else v)) as [_ ->];
    [ intros j a; destruct (strict_eq _ _); [apply length_set|done]
    | intros j k a Hk; destruct (strict_eq _ _); [by apply get_set_ne|done]
    | intros j a; destruct (strict_eq _ _);
        [apply get_set_same | by destruct (get a j)]
    | lia
    | ].
  rewrite decide_True by done. unfold zeros. rewrite get_replicate by done.
  simpl. by destruct (strict_eq _ _).
Qed.

Lemma strict_eq_true cell n : strict_eq cell n = true ↔ cell = Some n.
Proof.
  unfold strict_eq. destruct cell as [v|]; [|done].
  rewrite Z.eqb_eq. split; congruence.
Qed.

(** C3. The mask built for class [target] has a 1 at index [i] exactly when
    the grid holds [target] there, and a 0 at every other index of the
    grid; the wall mask and the floor mask of one grid are never both set
    at the same index. *)
Theorem buildMask_spec outputClasses target i :
  length (buildMask outputClasses target) = length outputClasses ∧
  (get (buildMask outputClasses target) i = Some 1 ↔
     get outputClasses i = Some target) ∧
  (is_set (get (buildMask outputClasses target) i) ↔
     get outputClasses i = Some target) ∧
  (get (buildMask outputClasses target) i = Some 0 ↔
     is_Some (get outputClasses i) ∧ get outputClasses i ≠ Some target) ∧
  ¬ (is_set (get (wallMask outputClasses) i) ∧
     is_set (get (floorMask outputClasses) i)).
Proof.
  assert (∀ c, is_set (get (buildMask outputClasses c) i) ↔
               get outputClasses i = Some c) as Hset.
  { intros c. destruct (decide (0 ≤ i < Z.of_nat (length outputClasses))) as [Hi|Hi].
    - rewrite get_buildMask by done. rewrite <- strict_eq_true.
      destruct (strict_eq _ _); split; try done.
      + intros _. exists 1. split; [done|lia].
      + intros (v & [= <-] & Hv). lia.
    - rewrite (get_out_of_range outputClasses) by done.
      rewrite get_out_of_range by (by rewrite length_buildMask).
      split; [intros (v & Hv & _)|]; done. }
  split; [apply length_buildMask|]. split; [|split; [apply Hset|split]].
  - destruct (decide (0 ≤ i < Z.of_nat (length outputClasses))) as [Hi|Hi].
    + rewrite get_buildMask by done.
      rewrite <- (strict_eq_true (get outputClasses i) target).
      destruct (strict_eq _ _); simpl; split; congruence.
    + rewrite (get_out_of_range outputClasses) by done.
      rewrite get_out_of_range by (by rewrite length_buildMask). done.
  - destruct (decide (0 ≤ i < Z.of_nat (length outputClasses))) as [Hi|Hi].
    + rewrite get_buildMask by done.
      pose proof (get_in_range outputClasses i Hi) as Hsome.
      pose proof (strict_eq_true (get outputClasses i) target) as Hst.
      destruct (strict_eq _ _); simpl; split.
      * congruence.
      * intros [_ Hne]. exfalso. by apply Hne, Hst.
      * intros _. split; [done|]. intros Habs. apply Hst in Habs. done.
      * done.
    + rewrite (get_out_of_range outputClasses) by done.
      rewrite get_out_of_range by (by rewrite length_buildMask).
      split; [done|]. intros [[v Hv] _]. done.
  - unfold wallMask, floorMask, wall_class, floor_class.
    rewrite !Hset. intros [Hw Hf]. congruence.
Qed.

(** ** Comparison of floating-point numbers *)

Ltac sf_cases :=
  simpl;
  repeat match goal with
  | |- context [Z.compare ?a ?b] => destruct (Z.compare_spec a b); simpl
  | |- context [Pos.compare_cont Eq ?a ?b] =>
      change (Pos.compare_cont Eq a b) with (Pos.compare a b);
      destruct (Pos.compare_spec a b); simpl
  end; try done; try lia.

Lemma SFltb_irrefl x : SFltb x x = false.
Proof.
  unfold SFltb, SFcompare. destruct x as [[]|[]| |[] m e]; sf_cases.
Qed.

Lemma SFltb_leb_trans a b c :
  SFltb a b = true → SFleb b c = true → SFltb a c = true.
Proof.
  unfold SFltb, SFleb, SFcompare.
  destruct a as [[]|[]| |[] ma ea], b as [[]|[]| |[] mb eb],
    c as [[]|[]| |[] mc ec]; try done.
  all: sf_cases.
Qed.

Lemma SFltb_leb a b : SFltb a b = true → SFleb a b = true.
Proof. unfold SFltb, SFleb. by destruct (SFcompare a b) as [[]|]. Qed.

Lemma SFleb_total a b :
  a ≠ S754_nan → b ≠ S754_nan → SFltb a b = false → SFleb b a = true.
Proof.
  unfold SFltb, SFleb, SFcompare.
  destruct a as [[]|[]| |[] ma ea], b as [[]|[]| |[] mb eb]; try done.
  all: sf_cases.
Qed.

Lemma SFltb_neg_infinity x :
  SFltb neg_infinity x = false → x = S754_nan ∨ x = neg_infinity.
Proof. destruct x as [[]|[]| |[] m e]; try done; auto. Qed.

(** Nothing above a new maximum: what was not above the old one is not
    at or above a strictly larger one. *)
Lemma js_not_ge_new_max m s cell :
  SFltb m s = true → js_gt cell (Some m) = false → js_ge cell (Some s) = false.
Proof.
  intros Hlt Hgt. destruct cell as [x|]; [|done]. simpl in *.
  destruct (SFleb s x) eqn:Hle; [|done].
  by rewrite (SFltb_leb_trans m s x) in Hgt.
Qed.

Lemma js_not_ge_not_gt cell m : js_ge cell m = false → js_gt cell m = false.
Proof.
  destruct cell as [x|], m as [y|]; try done. simpl.
  intros Hle. destruct (SFltb y x) eqn:Hlt; [|done].
  apply SFltb_leb in Hlt. congruence.
Qed.

(** ** The decode loop: the invariant and what it gives *)

Section Decode.
Context (outputData : list spec_float) (outWidth outHeight : Z).

Lemma argmax_scan_inv n i :
  0 ≤ n →
  scan_inv outputData outWidth outHeight i n
    (argmax_scan outputData n outWidth outHeight i).
Proof.
  intros Hn. unfold argmax_scan.
  apply (for_range_inv (scan_inv outputData outWidth outHeight i)); [done| |].
  - exists neg_infinity. split; [done|]. split; [intros; lia|by left].
  - intros c [ms mc] Hc (m & Hms & Hmax & Hsel). simpl in Hms, Hsel. subst ms.
    fold (score_at outputData outWidth outHeight i c).
    destruct (js_gt (score_at outputData outWidth outHeight i c) (Some m))
      eqn:Hgt.
    + destruct (score_at outputData outWidth outHeight i c) as [s|] eqn:Hs;
        [|done].
      simpl in Hgt. exists s. split; [done|]. split.
      * intros c' Hc'. destruct (decide (c' = c)) as [->|Hne].
        -- rewrite Hs. simpl. apply SFltb_irrefl.
        -- apply js_not_ge_not_gt, (js_not_ge_new_max m); [done|].
           apply Hmax. lia.
      * right. simpl. split; [lia|]. split; [done|].
        intros c' Hc'. apply (js_not_ge_new_max m); [done|]. apply Hmax. lia.
    + exists m. split; [done|]. split.
      * intros c' Hc'. destruct (decide (c' = c)) as [->|Hne]; [done|].
        apply Hmax. lia.
      * simpl. destruct Hsel as [Hsel|(Hr & Hsc & Hlow)]; [by left|].
        right. split; [lia|done].
Qed.

Lemma argmax_at_range n i :
  1 ≤ n → 0 ≤ argmax_at outputData n outWidth outHeight i < n.
Proof.
  intros Hn. unfold argmax_at.
  destruct (argmax_scan_inv n i ltac:(lia)) as (m & _ & _ & [[-> _]|[Hr _]]); lia.
Qed.

Lemma argmax_at_not_exceeded n i c :
  0 ≤ c < n →
  js_gt (score_at outputData outWidth outHeight i c)
        (score_at outputData outWidth outHeight i
           (argmax_at outputData n outWidth outHeight i)) = false.
Proof.
  intros Hc. unfold argmax_at.
  destruct (argmax_scan_inv n i ltac:(lia))
    as (m & _ & Hmax & [[-> ->]|(_ & -> & _)]); [|by apply Hmax].
  pose proof (Hmax c Hc) as Hc_low.
  pose proof (Hmax 0 ltac:(lia)) as H0_low.
  destruct (score_at outputData outWidth outHeight i c) as [x|]; [|done].
  destruct (score_at outputData outWidth outHeight i 0) as [y|]; [|done].
  simpl in *.
  destruct (SFltb_neg_infinity y H0_low) as [-> | ->]; [|done].
  unfold SFltb. simpl. by destruct x.
Qed.

End Decode.

Lemma argmax_at_lowest outputData outWidth outHeight n i c :
  0 ≤ n →
  0 ≤ c < argmax_at outputData n outWidth outHeight i →
  js_ge (score_at outputData outWidth outHeight i c)
        (score_at outputData outWidth outHeight i
           (argmax_at outputData n outWidth outHeight i)) = false.
Proof.
  intros Hn Hc. unfold argmax_at in *.
  destruct (argmax_scan_inv outputData outWidth outHeight n i Hn)
    as (m & _ & _ & [[Hz _]|(_ & -> & Hlow)]); [lia|].
  by apply Hlow.
Qed.

Lemma length_decode outputData n outWidth outHeight :
  length (decode outputData n outWidth outHeight)
  = Z.to_nat (outWidth * outHeight).
Proof.
  unfold decode.
  destruct (decide (0 ≤ outWidth * outHeight)) as [Hpos|Hneg].
  - edestruct (for_range_cellwise
      (λ i classIds, set classIds i
         (to_uint8 (argmax_at outputData n outWidth outHeight i)))
      (λ i _, to_uint8 (argmax_at outputData n outWidth outHeight i)))
      as [-> _];
      [ intros; apply length_set
      | intros; by apply get_set_ne
      | intros; apply get_set_same
      | done
      | apply length_replicate ].
  - rewrite for_range_done by lia. apply length_replicate.
Qed.

Lemma get_decode outputData n outWidth outHeight i :
  0 ≤ i < outWidth * outHeight →
  get (decode outputData n outWidth outHeight) i
  = Some (to_uint8 (argmax_at outputData n outWidth outHeight i)).
Proof.
  intros Hi. unfold decode.
  edestruct (for_range_cellwise
    (λ i classIds, set classIds i
       (to_uint8 (argmax_at outputData n outWidth outHeight i)))
    (λ i _, to_uint8 (argmax_at outputData n outWidth outHeight i)))
    as [_ ->];
    [ intros; apply length_set
    | intros; by apply get_set_ne
    | intros; apply get_set_same
    | lia
    | ].
  rewrite decide_True by done. unfold zeros.
  by rewrite get_replicate by lia.
Qed.

(** C2. At every pixel of the grid the decoder stores the class found by
    the scan. With at least one class, that class is a valid index, no class
    has a strictly greater score, and every class of lower index has a score
    that is not even equal to it (so among classes sharing the maximal score
    the lowest index is taken). When every score at the pixel is a number,
    the selected score is at least every score. *)
Theorem decode_argmax_lowest outputData n outWidth outHeight i :
  1 ≤ n →
  0 ≤ i < outWidth * outHeight →
  let score := score_at outputData outWidth outHeight i in
  let sel := argmax_at outputData n outWidth outHeight i in
  get (decode outputData n outWidth outHeight) i = Some (to_uint8 sel) ∧
  0 ≤ sel < n ∧
  (∀ c, 0 ≤ c < n → js_gt (score c) (score sel) = false) ∧
  (∀ c, 0 ≤ c < sel → js_ge (score c) (score sel) = false) ∧
  ((∀ c, 0 ≤ c < n → is_number (score c)) →
   ∀ c, 0 ≤ c < n → js_le (score c) (score sel) = true).
Proof.
  intros Hn Hi score sel.
  pose proof (argmax_at_range outputData outWidth outHeight n i Hn) as Hsel.
  split; [by apply get_decode|]. split; [done|]. split; [|split].
  - intros c Hc. by apply argmax_at_not_exceeded.
  - intros c Hc. apply argmax_at_lowest; [lia|done].
  - intros Hnum c Hc.
    pose proof (argmax_at_not_exceeded outputData outWidth outHeight n i c Hc)
      as Hgt.
    fold score sel in Hgt.
    destruct (Hnum c Hc) as (x & Hx & Hxn).
    destruct (Hnum sel Hsel) as (y & Hy & Hyn).
    rewrite Hx, Hy in *. simpl in *. by apply SFleb_total.
Qed.

Lemma decode_argmax_lowest_witness :
  let score := score_at tie_scores 2 1 0 in
  let sel := argmax_at tie_scores 2 2 1 0 in
  get (decode tie_scores 2 2 1) 0 = Some (to_uint8 sel) ∧
  0 ≤ sel < 2 ∧
  (∀ c, 0 ≤ c < 2 → js_gt (score c) (score sel) = false) ∧
  (∀ c, 0 ≤ c < sel → js_ge (score c) (score sel) = false) ∧
  ((∀ c, 0 ≤ c < 2 → is_number (score c)) →
   ∀ c, 0 ≤ c < 2 → js_le (score c) (score sel) = true).
Proof. apply (decode_argmax_lowest tie_scores 2 2 1 0); lia. Defined.

(** C6. With between 1 and 255 classes, every cell of the decoded grid is
    a class index: at least 0 and below the number of classes. *)
Theorem decode_in_range outputData n outWidth outHeight i v :
  1 ≤ n ≤ 255 →
  get (decode outputData n outWidth outHeight) i = Some v →
  0 ≤ v < n.
Proof.
  intros Hn Hv.
  pose proof (get_Some_range _ _ _ Hv) as Hi.
  rewrite length_decode in Hi.
  rewrite get_decode in Hv by lia. injection Hv as <-.
  pose proof (argmax_at_range outputData outWidth outHeight n i ltac:(lia)).
  unfold to_uint8. rewrite Z.mod_small; lia.
Qed.

Lemma decode_in_range_witness :
  get (decode tie_scores 2 2 1) 1 = Some 0 ∧ 0 ≤ 0 < 2.
Proof.
  split; [reflexivity|].
  apply (decode_in_range tie_scores 2 2 1 1 0); [lia | reflexivity].
Defined.

Example decode_tie_scores : decode tie_scores 2 2 1 = [0; 0].
Proof. reflexivity. Qed.

Example decode_second_wins :
  decode [S754_zero false; S754_finite false 1 0] 2 1 1 = [1].
Proof. reflexivity. Qed.

(** ** preprocessImage: layout and normalisation *)

Lemma preprocess_planes_inv width height data :
  0 ≤ width * height →
  length (preprocess_planes width height data)
  = Z.to_nat (3 * (width * height)) ∧
  ∀ i c, 0 ≤ i < width * height → 0 ≤ c < 3 →
    get (preprocess_planes width height data) (c * (width * height) + i)
    = Some (fround (div255 (get data (i * 4 + c)))).
Proof.
  unfold preprocess_planes.
  replace (3 * width * height) with (3 * (width * height)) by lia.
  replace (2 * width * height) with (2 * (width * height)) by lia.
  generalize (width * height). intros plane Hplane.
  pose proof (for_range_inv (λ n (floatData : list spec_float),
    length floatData = Z.to_nat (3 * plane) ∧
    ∀ i c, 0 ≤ i < n → 0 ≤ c < 3 →
      get floatData (c * plane + i)
      = Some (fround (div255 (get data (i * 4 + c)))))
    0 plane) as Hinv.
  simpl in Hinv. apply Hinv; clear Hinv; [done| |].
  - split; [apply length_replicate|]. intros; lia.
  - intros n floatData Hn [Hlen Hget]. split; [by rewrite !length_set|].
    intros i c Hi Hc.
    destruct (decide (i = n)) as [->|Hne].
    + assert (c = 0 ∨ c = 1 ∨ c = 2) as [-> | [-> | ->]] by lia.
      * rewrite !get_set_ne by lia.
        replace (0 * plane + n) with n by lia.
        replace (n * 4 + 0) with (n * 4) by lia.
        apply get_set_eq. lia.
      * rewrite get_set_ne by lia.
        replace (1 * plane + n) with (n + plane) by lia.
        apply get_set_eq. rewrite length_set. lia.
      * replace (2 * plane + n) with (n + 2 * plane) by lia.
        apply get_set_eq. rewrite !length_set. lia.
    + rewrite !get_set_ne; [apply Hget; lia|..].
      * intros Heq. replace n with (0 * plane + n) in Heq by lia.
        apply cell_index_inj in Heq; lia.
      * intros Heq. replace (n + plane) with (1 * plane + n) in Heq by lia.
        apply cell_index_inj in Heq; lia.
      * intros Heq. replace (n + 2 * plane) with (2 * plane + n) in Heq by lia.
        apply cell_index_inj in Heq; lia.
Qed.

Lemma normalized_ok_bytes b : 0 ≤ b ≤ 255 → normalized_ok b = true.
Proof.
  intros Hb.
  assert (forallb normalized_ok (seqZ 0 256) = true) as Hall by (vm_compute; done).
  rewrite forallb_forall in Hall. apply Hall.
  apply list_elem_of_In, elem_of_seqZ. lia.
Qed.

Lemma get_of_nat {A} (a : list A) (k : nat) : get a (Z.of_nat k) = a !! k.
Proof. unfold get. rewrite decide_True by lia. by rewrite Nat2Z.id. Qed.

(** The planes depend on the colour bytes only. *)
Lemma preprocess_planes_colour_only width height data data' :
  (∀ i c, 0 ≤ i < width * height → 0 ≤ c < 3 →
     get data' (i * 4 + c) = get data (i * 4 + c)) →
  preprocess_planes width height data' = preprocess_planes width height data.
Proof.
  intros Hsame.
  destruct (decide (0 ≤ width * height)) as [Hpos|Hneg].
  - destruct (preprocess_planes_inv width height data Hpos) as [Hlen Hget].
    destruct (preprocess_planes_inv width height data' Hpos) as [Hlen' Hget'].
    apply list_eq. intros k.
    destruct (decide (Z.of_nat k < 3 * (width * height))) as [Hk|Hk].
    + destruct (index_as_cell (width * height) 3 (Z.of_nat k) Hpos ltac:(lia))
        as (i & c & Hi & Hc & Hkic).
      rewrite <- !get_of_nat, Hkic.
      rewrite Hget, Hget' by done. by rewrite Hsame.
    + rewrite !lookup_ge_None_2; [done|lia..].
  - unfold preprocess_planes. rewrite !for_range_done by lia. done.
Qed.

(** C9. For a 512x512 RGBA byte buffer, the result has 3*512*512 cells;
    the cell of channel [c] (0 red, 1 green, 2 blue) and pixel [i] holds the
    byte [4*i + c] divided by 255, computed in binary64 and stored as
    binary32, which is a number between 0 and 1 within half a unit in the
    last place of the exact quotient; the alpha bytes have no influence on
    the result. *)
Theorem preprocessImage_planar data i c :
  Z.of_nat (length data) = 4 * 512 * 512 →
  Forall (λ b, 0 ≤ b ≤ 255) data →
  0 ≤ i < 512 * 512 → 0 ≤ c < 3 →
  Z.of_nat (length (preprocessImage data)) = 3 * 512 * 512 ∧
  (∃ b q,
     get data (4 * i + c) = Some b ∧
     get (preprocessImage data) (c * 512 * 512 + i)
       = Some (fround (f64_div (f64_of_int b) (f64_of_int 255))) ∧
     SF2Q (fround (f64_div (f64_of_int b) (f64_of_int 255))) = Some q ∧
     (0 <= q)%Q ∧ (q <= 1)%Q ∧ (Qabs (q - exact_ratio b) <= half_ulp)%Q) ∧
  (∀ data',
     (∀ j k, 0 ≤ j < 512 * 512 → 0 ≤ k < 3 →
        get data' (j * 4 + k) = get data (j * 4 + k)) →
     preprocessImage data' = preprocessImage data).
Proof.
  intros Hlen Hbytes Hi Hc. unfold preprocessImage.
  destruct (preprocess_planes_inv 512 512 data ltac:(lia)) as [Hl Hget].
  split; [rewrite Hl; lia|]. split.
  - destruct (get_in_range data (4 * i + c) ltac:(lia)) as [b Hb].
    assert (0 ≤ b ≤ 255) as Hrange.
    { rewrite Forall_lookup in Hbytes. unfold get in Hb.
      case_decide; [|discriminate]. by eapply Hbytes. }
    pose proof (normalized_ok_bytes b Hrange) as Hok.
    unfold normalized_ok, div255 in Hok.
    destruct (SF2Q (fround (f64_div (f64_of_int b) (f64_of_int 255))))
      as [q|] eqn:Hq; [|discriminate].
    apply andb_true_iff in Hok as [Hok Herr].
    apply andb_true_iff in Hok as [Hlo Hhi].
    apply Qle_bool_iff in Hlo, Hhi, Herr.
    exists b, q. split; [exact Hb|]. split; [|by repeat split].
    replace (c * 512 * 512 + i) with (c * (512 * 512) + i) by lia.
    rewrite Hget by lia.
    replace (i * 4 + c) with (4 * i + c) by lia.
    by rewrite Hb.
  - intros data' Hsame. by apply preprocess_planes_colour_only.
Qed.

Lemma black_image_bytes : Forall (λ b, 0 ≤ b ≤ 255) black_image.
Proof. apply Forall_replicate. lia. Qed.

Lemma black_image_length : Z.of_nat (length black_image) = 4 * 512 * 512.
Proof. unfold black_image. rewrite length_replicate. lia. Qed.

Lemma preprocessImage_planar_witness :
  Z.of_nat (length (preprocessImage black_image)) = 3 * 512 * 512 ∧
  (∃ b q,
     get black_image (4 * 0 + 0) = Some b ∧
     get (preprocessImage black_image) (0 * 512 * 512 + 0)
       = Some (fround (f64_div (f64_of_int b) (f64_of_int 255))) ∧
     SF2Q (fround (f64_div (f64_of_int b) (f64_of_int 255))) = Some q ∧
     (0 <= q)%Q ∧ (q <= 1)%Q ∧ (Qabs (q - exact_ratio b) <= half_ulp)%Q) ∧
  (∀ data',
     (∀ j k, 0 ≤ j < 512 * 512 → 0 ≤ k < 3 →
        get data' (j * 4 + k) = get black_image (j * 4 + k)) →
     preprocessImage data' = preprocessImage black_image).
Proof.
  apply (preprocessImage_planar black_image 0 0);
    [apply black_image_length | apply black_image_bytes | lia | lia].
Defined.

Example normalise_one : fround (div255 (Some 1)) = S754_finite false 8421505 (-31).
Proof. reflexivity. Qed.

Example normalise_full : fround (div255 (Some 255)) = S754_finite false 8388608 (-23).
Proof. reflexivity. Qed.

Example preprocess_one_pixel :
  preprocess_planes 1 1 [255; 0; 255; 77]
  = [S754_finite false 8388608 (-23); S754_zero false;
     S754_finite false 8388608 (-23)].
Proof. reflexivity. Qed.

(** ** Texture loading and the overlay *)

Section Textures.
Context (world : World).

(** Both textures are awaited before the first mask is built, so a floor
    texture that fails to load ends the overlay routine with the canvas
    untouched. *)
Lemma overlay_floor_rejected outputClasses maskWidth maskHeight ctx wallTexture :
  load_image world "/Textures/Floor.webp" = Fulfilled wallTexture →
  load_image world "/Textures/Floor1.jpg" = Rejected →
  drawSegmentationOverlay world outputClasses maskWidth maskHeight ctx
  = (ctx, Rejected).
Proof.
  intros Hwall Hfloor.
  unfold drawSegmentationOverlay, loadTexture, await, mbind, task_bind.
  by rewrite Hwall, Hfloor.
Qed.

Lemma overlay_both_loaded outputClasses maskWidth maskHeight ctx
    wallTexture floorTexture :
  load_image world "/Textures/Floor.webp" = Fulfilled wallTexture →
  load_image world "/Textures/Floor1.jpg" = Fulfilled floorTexture →
  drawSegmentationOverlay world outputClasses maskWidth maskHeight ctx
  = (ctx ++ [DrawImage (WallLayer wallTexture
               (dilate (wallMask outputClasses) maskWidth maskHeight));
             DrawImage (FloorLayer floorTexture
               (dilate (floorMask outputClasses) maskWidth maskHeight))],
     Fulfilled tt).
Proof.
  intros Hwall Hfloor.
  unfold drawSegmentationOverlay, loadTexture, await, draw, mbind, task_bind.
  rewrite Hwall, Hfloor. by rewrite <- app_assoc.
Qed.

Lemma run_until_overlay data ctx tensor :
  wasm_available world = true →
  create_session world = Fulfilled tt →
  session_run world (preprocessImage data) = Fulfilled tensor →
  run world data ctx
  = drawSegmentationOverlay world
      (decode (outputData tensor) (numClasses tensor)
         (outWidth tensor) (outHeight tensor))
      (outWidth tensor) (outHeight tensor) [DrawImage InputImage].
Proof.
  intros Hwasm Hsession Hrun.
  unfold run, loadModel, await, draw, resize, mbind, mret, task_bind, task_ret.
  rewrite Hwasm, Hsession. simpl. by rewrite Hrun.
Qed.

Lemma run_floor_rejected data ctx tensor wallTexture :
  wasm_available world = true →
  create_session world = Fulfilled tt →
  session_run world (preprocessImage data) = Fulfilled tensor →
  load_image world "/Textures/Floor.webp" = Fulfilled wallTexture →
  load_image world "/Textures/Floor1.jpg" = Rejected →
  run world data ctx = ([DrawImage InputImage], Rejected).
Proof.
  intros Hwasm Hsession Hrun Hwall Hfloor.
  rewrite (run_until_overlay data ctx tensor) by done.
  by apply (overlay_floor_rejected _ _ _ _ wallTexture).
Qed.

End Textures.

(** C4, as the code behaves. When the floor texture fails to load while
    the wall texture loads (and the model loaded and inference succeeded),
    the run rejects: the overlay routine draws nothing, and the canvas
    holds the input image alone, without wall overlay and without floor
    overlay. *)
Theorem floor_texture_failure_rejects world data ctx tensor wallTexture :
  wasm_available world = true →
  create_session world = Fulfilled tt →
  session_run world (preprocessImage data) = Fulfilled tensor →
  load_image world "/Textures/Floor.webp" = Fulfilled wallTexture →
  load_image world "/Textures/Floor1.jpg" = Rejected →
  run world data ctx = ([DrawImage InputImage], Rejected) ∧
  completes (run world data ctx) = false ∧
  has_wall_overlay (run world data ctx).1 = false ∧
  has_floor_overlay (run world data ctx).1 = false.
Proof.
  intros Hwasm Hsession Hrun Hwall Hfloor.
  by rewrite (run_floor_rejected world data ctx tensor wallTexture).
Qed.

Lemma floor_texture_failure_rejects_witness :
  run floor_texture_fails black_image [] = ([DrawImage InputImage], Rejected) ∧
  completes (run floor_texture_fails black_image []) = false ∧
  has_wall_overlay (run floor_texture_fails black_image []).1 = false ∧
  has_floor_overlay (run floor_texture_fails black_image []).1 = false.
Proof.
  apply (floor_texture_failure_rejects floor_texture_fails black_image []
           wall_then_floor (sample_image "/Textures/Floor.webp")); reflexivity.
Defined.

(** C4, as the specification states it, fails: in a run where only the
    floor texture fails to load, the run does not complete and the canvas
    has no wall overlay. *)
Lemma floor_failure_not_graceful :
  load_image floor_texture_fails "/Textures/Floor.webp"
    = Fulfilled (sample_image "/Textures/Floor.webp") ∧
  load_image floor_texture_fails "/Textures/Floor1.jpg" = Rejected ∧
  ¬ (completes (run floor_texture_fails black_image []) = true ∧
     has_wall_overlay (run floor_texture_fails black_image []).1 = true ∧
     has_floor_overlay (run floor_texture_fails black_image []).1 = false).
Proof.
  split; [reflexivity|]. split; [reflexivity|].
  rewrite (run_floor_rejected floor_texture_fails black_image []
             wall_then_floor (sample_image "/Textures/Floor.webp"))
    by reflexivity.
  simpl. intros (Hc & _). discriminate.
Qed.

Example decode_wall_then_floor :
  decode (outputData wall_then_floor) (numClasses wall_then_floor)
    (outWidth wall_then_floor) (outHeight wall_then_floor) = [0; 3].
Proof. reflexivity. Qed.

(** ** More on dilation *)

Lemma elem_of_mask_writes_nonzero mask width height x y :
  0 ≤ x < width → 0 ≤ y < height →
  y * width + x ∈ mask_writes mask width height ↔
  ∃ x' y', adjacent width height x y x' y' ∧
           is_zero (get mask (y' * width + x')) = false.
Proof.
  intros Hx Hy. rewrite elem_of_mask_writes. unfold adjacent, radius. split.
  - intros (x' & y' & Hx' & Hy' & Hz & Hk).
    apply elem_of_block_writes in Hk as (dx & dy & Hdx & Hdy & Hb & Hk).
    unfold radius in *. apply in_bounds_spec in Hb as [Hnx Hny].
    apply cell_index_inj in Hk as [-> ->]; [|done..].
    exists x', y'. split; [lia|done].
  - intros (x' & y' & (Hx' & Hy' & Hdx & Hdy) & Hz).
    exists x', y'. split; [done|]. split; [done|]. split; [done|].
    apply elem_of_block_writes. exists (x - x'), (y - y'). unfold radius.
    repeat split; try lia.
    apply in_bounds_spec. lia.
Qed.

Lemma mask_writes_in_grid mask width height k :
  k ∈ mask_writes mask width height → 0 ≤ k < width * height.
Proof.
  intros (x & y & _ & _ & _ & Hk)%elem_of_mask_writes.
  apply elem_of_block_writes in Hk as (dx & dy & _ & _ & Hb & ->).
  apply in_bounds_spec in Hb as [Hnx Hny]. by apply cell_index_range.
Qed.

Lemma is_zero_false_not_zero cell : is_zero cell = false ↔ cell ≠ Some 0.
Proof.
  unfold is_zero, strict_eq. destruct cell as [v|]; [|done].
  rewrite Z.eqb_neq. split; congruence.
Qed.

Lemma dilate_all_zero mask width height :
  (∀ k, k ∉ mask_writes mask width height) →
  dilate mask width height = zeros (length mask).
Proof.
  intros Hnone. apply list_eq. intros k.
  destruct (decide (k < length mask)%nat) as [Hk|Hk].
  - rewrite <- !get_of_nat. rewrite get_dilate by lia.
    rewrite decide_False by apply Hnone.
    unfold zeros. by rewrite get_replicate by lia.
  - rewrite !lookup_ge_None_2; [done|..].
    + unfold zeros. rewrite length_replicate. lia.
    + rewrite length_dilate. lia.
Qed.

Lemma is_set_dilate mask width height k :
  is_set (get (dilate mask width height) k) ↔
  0 ≤ k < Z.of_nat (length mask) ∧ k ∈ mask_writes mask width height.
Proof.
  split.
  - intros (v & Hv & Hne).
    pose proof (get_Some_range _ _ _ Hv) as Hk. rewrite length_dilate in Hk.
    split; [done|]. rewrite get_dilate in Hv by done.
    case_decide; [done|congruence].
  - intros [Hk Hin]. rewrite get_dilate by done. rewrite decide_True by done.
    exists 1. split; [done|lia].
Qed.

(** A point one step from [x] on the way to a point two steps away. *)
Lemma step_between x x2 lo hi :
  Z.abs (x - x2) ≤ 2 → lo ≤ x < hi → lo ≤ x2 < hi →
  ∃ x1, lo ≤ x1 < hi ∧ Z.abs (x - x1) ≤ 1 ∧ Z.abs (x1 - x2) ≤ 1.
Proof.
  intros Hd Hx Hx2.
  destruct (decide (x2 - x = 2)); [exists (x + 1); lia|].
  destruct (decide (x - x2 = 2)); [exists (x - 1); lia|].
  exists x2. lia.
Qed.

(** X1. Two passes of [dilate] reach exactly the pixels within Chebyshev
    distance 2 of a set pixel. *)
Theorem dilate_twice_radius_two mask width height x y :
  Z.of_nat (length mask) = width * height →
  0 ≤ x < width → 0 ≤ y < height →
  get (dilate (dilate mask width height) width height) (y * width + x) = Some 1 ↔
  ∃ x' y', set_within 2 mask width height x y x' y'.
Proof.
  intros Hlen Hx Hy.
  pose proof (cell_index_range width height x y Hx Hy) as Hidx.
  rewrite get_dilate by (rewrite length_dilate; lia).
  assert (y * width + x ∈ mask_writes (dilate mask width height) width height
          ↔ ∃ x' y', set_within 2 mask width height x y x' y') as <-;
    [|case_decide; split; try done; intros; congruence].
  rewrite elem_of_mask_writes_cell by (by rewrite ?length_dilate).
  unfold set_neighbour, set_within, radius. split.
  - intros (x1 & y1 & Hx1 & Hy1 & Hdx & Hdy & Hset).
    apply is_set_dilate in Hset as [_ Hin].
    apply elem_of_mask_writes_cell in Hin as (x2 & y2 & Hn); [|done..].
    destruct Hn as (Hx2 & Hy2 & Hdx2 & Hdy2 & Hset2). unfold radius in *.
    exists x2, y2. repeat split; try lia. done.
  - intros (x2 & y2 & Hx2 & Hy2 & Hdx & Hdy & Hset).
    destruct (step_between x x2 0 width Hdx Hx Hx2) as (x1 & Hx1 & Hd1 & Hd2).
    destruct (step_between y y2 0 height Hdy Hy Hy2) as (y1 & Hy1 & He1 & He2).
    exists x1, y1. split; [done|]. split; [done|]. split; [done|]. split; [done|].
    apply is_set_dilate. split.
    + rewrite Hlen. by apply cell_index_range.
    + apply elem_of_mask_writes_cell; [done..|].
      exists x2, y2. unfold set_neighbour, radius. repeat split; try lia. done.
Qed.

Lemma dilate_twice_radius_two_witness :
  get (dilate (dilate [1;0;0;0] 4 1) 4 1) (0 * 4 + 2) = Some 1 ↔
  ∃ x' y', set_within 2 [1;0;0;0] 4 1 2 0 x' y'.
Proof.
  apply (dilate_twice_radius_two [1;0;0;0] 4 1 2 0); [reflexivity | lia | lia].
Defined.

(** X2. Dilation distributes over the union of two masks of the same
    length. *)
Theorem dilate_union mask1 mask2 width height :
  length mask1 = length mask2 →
  dilate (mask_or mask1 mask2) width height
  = mask_or (dilate mask1 width height) (dilate mask2 width height).
Proof.
  intros Hlen. unfold mask_or.
  assert (length (zip_with Z.lor mask1 mask2) = length mask1) as Hlz.
  { rewrite length_zip_with. lia. }
  assert (∀ k, k ∈ mask_writes (zip_with Z.lor mask1 mask2) width height ↔
               k ∈ mask_writes mask1 width height ∨
               k ∈ mask_writes mask2 width height) as Hw.
  { intros k. rewrite !elem_of_mask_writes.
    assert (∀ idx, is_zero (get (zip_with Z.lor mask1 mask2) idx) = false ↔
                   is_zero (get mask1 idx) = false ∨
                   is_zero (get mask2 idx) = false) as Hz.
    { intros idx. unfold get.
      case_decide; [|split; [intros _; by left | done]].
      rewrite lookup_zip_with.
      destruct (mask1 !! Z.to_nat idx) as [a|] eqn:Ha;
        destruct (mask2 !! Z.to_nat idx) as [b|] eqn:Hb; simpl.
      - unfold is_zero, strict_eq. rewrite !Z.eqb_neq, Z.lor_eq_0_iff.
        destruct (decide (a = 0)), (decide (b = 0)); intuition lia.
      - apply lookup_lt_Some in Ha. apply lookup_ge_None in Hb. lia.
      - apply lookup_lt_Some in Hb. apply lookup_ge_None in Ha. lia.
      - split; [intros _; by left | done]. }
    split.
    - intros (x & y & Hx & Hy & Hnz & Hk). apply Hz in Hnz as [Hnz|Hnz];
        [left|right]; by exists x, y.
    - intros [(x & y & Hx & Hy & Hnz & Hk)|(x & y & Hx & Hy & Hnz & Hk)];
        exists x, y; (split; [done|]; split; [done|]; split; [|done]);
        apply Hz; auto. }
  apply list_eq. intros k.
  destruct (decide (k < length mask1)%nat) as [Hk|Hk].
  - rewrite lookup_zip_with, <- !get_of_nat.
    rewrite !get_dilate by lia. simpl.
    repeat case_decide; try done; exfalso; rewrite Hw in *; tauto.
  - rewrite lookup_zip_with.
    rewrite (lookup_ge_None_2 (dilate mask1 width height))
      by (rewrite length_dilate; lia).
    rewrite lookup_ge_None_2; [done|]. rewrite length_dilate. lia.
Qed.

Lemma dilate_union_witness :
  dilate (mask_or [1;0;0;0;0] [0;0;0;0;1]) 5 1
  = mask_or (dilate [1;0;0;0;0] 5 1) (dilate [0;0;0;0;1] 5 1).
Proof. apply (dilate_union [1;0;0;0;0] [0;0;0;0;1] 5 1). reflexivity. Defined.

(** X3. When every cell of the grid holds 0 the result is all zeros; this
    includes a grid without pixels (a width or height of 0 or less), for
    which whatever the array held is wiped. *)
Theorem dilate_nothing_set mask width height :
  (∀ x y, 0 ≤ x < width → 0 ≤ y < height →
          get mask (y * width + x) = Some 0) →
  dilate mask width height = zeros (length mask).
Proof.
  intros Hzero. apply dilate_all_zero. intros k.
  rewrite elem_of_mask_writes. intros (x & y & Hx & Hy & Hnz & _).
  by rewrite (Hzero x y Hx Hy) in Hnz.
Qed.

Lemma dilate_nothing_set_witness : dilate [1;1] 0 5 = zeros (length [1;1]).
Proof. apply (dilate_nothing_set [1;1] 0 5). intros x y Hx Hy. lia. Defined.

(** X4. Whatever the length of the array, an output cell of the grid that
    lies in the array is 1 exactly when a pixel of the grid next to it holds
    something other than 0, and 0 otherwise; a pixel whose cell is missing
    from a too short array counts like a set pixel. *)
Theorem dilate_any_length mask width height x y :
  0 ≤ x < width → 0 ≤ y < height →
  y * width + x < Z.of_nat (length mask) →
  (get (dilate mask width height) (y * width + x) = Some 1 ↔
     ∃ x' y', adjacent width height x y x' y' ∧
              get mask (y' * width + x') ≠ Some 0) ∧
  (get (dilate mask width height) (y * width + x) = Some 0 ↔
     ∀ x' y', adjacent width height x y x' y' →
              get mask (y' * width + x') = Some 0).
Proof.
  intros Hx Hy Hlen.
  pose proof (cell_index_range width height x y Hx Hy) as Hidx.
  rewrite get_dilate by lia.
  pose proof (elem_of_mask_writes_nonzero mask width height x y Hx Hy) as Hw.
  split.
  - rewrite <- (exist_proper _ _ (λ x', exist_proper _ _ (λ y',
      and_iff_compat_l _ (is_zero_false_not_zero _)))).
    rewrite <- Hw. case_decide; split; try done; intros; congruence.
  - case_decide as Hin; split; try done.
    + intros Hall. apply Hw in Hin as (x' & y' & Hadj & Hnz).
      by rewrite (Hall x' y' Hadj) in Hnz.
    + intros _ x' y' Hadj.
      destruct (decide (get mask (y' * width + x') = Some 0)) as [|Hne];
        [done|].
      exfalso. apply Hin, Hw. exists x', y'. split; [done|].
      by apply is_zero_false_not_zero.
Qed.

Lemma dilate_any_length_witness :
  (get (dilate [0;0] 2 2) (0 * 2 + 0) = Some 1 ↔
     ∃ x' y', adjacent 2 2 0 0 x' y' ∧ get [0;0] (y' * 2 + x') ≠ Some 0) ∧
  (get (dilate [0;0] 2 2) (0 * 2 + 0) = Some 0 ↔
     ∀ x' y', adjacent 2 2 0 0 x' y' → get [0;0] (y' * 2 + x') = Some 0).
Proof. apply (dilate_any_length [0;0] 2 2 0 0); simpl; lia. Defined.

(** X5. Cells of the array that lie outside the grid (index at or beyond
    width times height) are 0 in the result, whatever the input held
    there. *)
Theorem dilate_clears_surplus mask width height k v :
  ¬ (0 ≤ k < width * height) →
  get mask k = Some v →
  get (dilate mask width height) k = Some 0.
Proof.
  intros Hout Hv. pose proof (get_Some_range _ _ _ Hv) as Hk.
  rewrite get_dilate by done.
  rewrite decide_False; [done|].
  intros Hin%mask_writes_in_grid. lia.
Qed.

Lemma dilate_clears_surplus_witness : get (dilate [1;1;1] 1 1) 2 = Some 0.
Proof.
  apply (dilate_clears_surplus [1;1;1] 1 1 2 1); [lia | reflexivity].
Defined.

Example dilate_short_array : dilate [0;0] 2 2 = [1;1].
Proof. reflexivity. Qed.

(** A point one step from [x] towards [x0]. *)
Lemma step_toward x x0 d lo hi :
  0 ≤ d → Z.abs (x - x0) ≤ d + 1 → lo ≤ x < hi → lo ≤ x0 < hi →
  ∃ x1, lo ≤ x1 < hi ∧ Z.abs (x - x1) ≤ 1 ∧ Z.abs (x1 - x0) ≤ d.
Proof.
  intros Hd Hdist Hx Hx0.
  destruct (decide (x0 < x)); [exists (x - 1); lia|].
  destruct (decide (x < x0)); [exists (x + 1); lia|].
  exists x. lia.
Qed.

(** In a mask that dilation leaves unchanged, one set pixel makes every
    pixel set. *)
Lemma fixed_mask_spreads mask width height x0 y0 :
  Z.of_nat (length mask) = width * height →
  dilate mask width height = mask →
  0 ≤ x0 < width → 0 ≤ y0 < height →
  is_set (get mask (y0 * width + x0)) →
  ∀ (d : nat) x y, 0 ≤ x < width → 0 ≤ y < height →
    Z.abs (x - x0) ≤ Z.of_nat d → Z.abs (y - y0) ≤ Z.of_nat d →
    is_set (get mask (y * width + x)).
Proof.
  intros Hlen Hfix Hx0 Hy0 Hset0.
  induction d as [|d IH]; intros x y Hx Hy Hdx Hdy.
  - replace x with x0 by lia. by replace y with y0 by lia.
  - destruct (step_toward x x0 (Z.of_nat d) 0 width) as (x1 & Hx1 & Ha & Hb);
      [lia..|].
    destruct (step_toward y y0 (Z.of_nat d) 0 height) as (y1 & Hy1 & Hc & Hd);
      [lia..|].
    rewrite <- Hfix. apply is_set_dilate. split.
    + rewrite Hlen. by apply cell_index_range.
    + apply elem_of_mask_writes_cell; [done..|].
      exists x1, y1. unfold set_neighbour, radius.
      repeat split; try lia. by apply IH.
Qed.

(** X6. On a 0/1 mask over a grid with at least one pixel, dilation
    changes nothing exactly when the mask is all zeros or all ones. *)
Theorem dilate_fixed_points mask width height :
  1 ≤ width → 1 ≤ height →
  Z.of_nat (length mask) = width * height →
  Forall (λ v, v = 0 ∨ v = 1) mask →
  dilate mask width height = mask ↔
  Forall (λ v, v = 0) mask ∨ Forall (λ v, v = 1) mask.
Proof.
  intros Hw Hh Hlen Hbool. split.
  - intros Hfix.
    destruct (decide (Forall (λ v, v = 0) mask)) as [Hall|Hsome]; [by left|].
    right. apply not_Forall_Exists in Hsome; [|apply _].
    apply Exists_exists in Hsome as (v0 & Hin & Hv0).
    apply list_elem_of_In, list_elem_of_lookup in Hin as [k0 Hk0].
    simpl in Hv0.
    pose proof (lookup_lt_Some _ _ _ Hk0) as Hk0lt.
    destruct (index_as_cell width height (Z.of_nat k0)) as (x0 & y0 & Hx0 & Hy0 & Hk0xy);
      [lia..|].
    assert (is_set (get mask (y0 * width + x0))) as Hset0.
    { rewrite <- Hk0xy, get_of_nat. by exists v0. }
    apply Forall_lookup. intros k v Hk.
    pose proof (lookup_lt_Some _ _ _ Hk) as Hklt.
    destruct (index_as_cell width height (Z.of_nat k)) as (x & y & Hx & Hy & Hkxy);
      [lia..|].
    destruct (fixed_mask_spreads mask width height x0 y0 Hlen Hfix Hx0 Hy0 Hset0
                (Z.to_nat (width + height)) x y Hx Hy) as (v' & Hv' & Hne);
      [lia..|].
    rewrite <- Hkxy, get_of_nat, Hk in Hv'. injection Hv' as <-.
    rewrite Forall_lookup in Hbool. destruct (Hbool k v Hk); [done|done].
  - intros [Hzero|Hone].
    + rewrite dilate_all_zero.
      * apply replicate_as_Forall. split; [done|].
        apply Forall_lookup. intros j v Hj.
        rewrite Forall_lookup in Hzero. symmetry. by apply (Hzero j).
      * intros k. rewrite elem_of_mask_writes.
        intros (x & y & Hx & Hy & Hnz & _).
        pose proof (cell_index_range width height x y Hx Hy) as Hidx.
        destruct (get_in_range mask (y * width + x)) as [v Hv]; [lia|].
        rewrite Hv in Hnz. unfold get in Hv. case_decide; [|done].
        rewrite Forall_lookup in Hzero. by rewrite (Hzero _ _ Hv) in Hnz.
    + apply list_eq. intros k.
      destruct (mask !! k) as [v|] eqn:Hk.
      * pose proof (lookup_lt_Some _ _ _ Hk) as Hklt.
        rewrite Forall_lookup in Hone.
        assert (v = 1) as -> by (by apply (Hone k)).
        destruct (index_as_cell width height (Z.of_nat k)) as (x & y & Hx & Hy & Hkxy);
          [lia..|].
        rewrite <- get_of_nat, get_dilate by lia.
        rewrite decide_True; [done|]. rewrite Hkxy.
        apply set_cell_written; [done..|].
        by rewrite <- Hkxy, get_of_nat, Hk.
      * apply lookup_ge_None. rewrite length_dilate.
        by apply lookup_ge_None.
Qed.

Lemma dilate_fixed_points_witness :
  dilate [1;1] 2 1 = [1;1] ↔
  Forall (λ v, v = 0) [1;1] ∨ Forall (λ v, v = 1) [1;1].
Proof.
  apply (dilate_fixed_points [1;1] 2 1); [lia | lia | reflexivity |].
  repeat constructor; by right.
Defined.

(** ** More on the decode loop *)

Lemma SFltb_trans a b c : SFltb a b = true → SFltb b c = true → SFltb a c = true.
Proof. intros Hab Hbc. apply (SFltb_leb_trans a b c); [done|by apply SFltb_leb]. Qed.

Lemma SFltb_not_nan_r a b : SFltb a b = true → b ≠ S754_nan.
Proof. intros Hlt ->. by destruct a as [[]|[]| |[] m e]. Qed.

Section DecodeMore.
Context (outputData : list spec_float) (outWidth outHeight : Z).

Lemma argmax_scan_real n i :
  scan_real (argmax_scan outputData n outWidth outHeight i).
Proof.
  unfold argmax_scan.
  destruct (decide (0 ≤ n)) as [Hn|Hn];
    [|rewrite for_range_done by lia; exists neg_infinity; split; [done|by left]].
  apply (for_range_inv (λ _, scan_real)); [done| |].
  - exists neg_infinity. split; [done|by left].
  - intros c [ms mc] Hc (m & Hms & Hreal). simpl in Hms, Hreal. subst ms.
    fold (score_at outputData outWidth outHeight i c).
    destruct (js_gt (score_at outputData outWidth outHeight i c) (Some m))
      eqn:Hgt; [|by exists m].
    destruct (score_at outputData outWidth outHeight i c) as [s|]; [|done].
    simpl in Hgt.
    exists s. split; [done|]. right.
    destruct Hreal as [[-> _]|Hm]; [done|]. by apply (SFltb_trans _ m).
Qed.

(** The two ways the scan can end: nothing was ever selected, or the
    selected class holds a number above [-Infinity]. *)
Lemma argmax_at_cases n i :
  let sel := argmax_at outputData n outWidth outHeight i in
  let score := score_at outputData outWidth outHeight i in
  (sel = 0 ∧ ∀ c, 0 ≤ c < n → js_gt (score c) (Some neg_infinity) = false) ∨
  (0 ≤ sel < n ∧ ∃ m, score sel = Some m ∧ SFltb neg_infinity m = true ∧
     (∀ c, 0 ≤ c < n → js_gt (score c) (Some m) = false) ∧
     (∀ c, 0 ≤ c < sel → js_ge (score c) (Some m) = false)).
Proof.
  intros sel score. unfold sel, score, argmax_at.
  destruct (decide (0 ≤ n)) as [Hn|Hn].
  - destruct (argmax_scan_inv outputData outWidth outHeight n i Hn)
      as (m & Hm & Hmax & Hsel).
    destruct (argmax_scan_real n i) as (m' & Hm' & Hreal).
    assert (m' = m) as -> by congruence.
    destruct Hreal as [[-> Hz]|Hreal]; [left; by split|].
    destruct Hsel as [[_ ->]|(Hr & Hs & Hlow)]; [done|].
    right. split; [done|]. by exists m.
  - left. unfold argmax_scan. rewrite for_range_done by lia.
    split; [done|]. intros; lia.
Qed.

End DecodeMore.

(** X7. The decoder selects the first maximal class and nothing else: if
    the score of class [c] is a number above [-Infinity], no later class
    has a strictly greater score and every earlier class has a score that
    is not at least as large (smaller, [NaN] or missing), then [c] is the
    class found at that pixel, and the grid stores [c] modulo 256. *)
Theorem decode_first_maximal outputData n outWidth outHeight i c :
  0 ≤ c < n →
  0 ≤ i < outWidth * outHeight →
  let score := score_at outputData outWidth outHeight i in
  js_gt (score c) (Some neg_infinity) = true →
  (∀ c', 0 ≤ c' < c → js_ge (score c') (score c) = false) →
  (∀ c', c < c' < n → js_gt (score c') (score c) = false) →
  argmax_at outputData n outWidth outHeight i = c ∧
  get (decode outputData n outWidth outHeight) i = Some (c mod 256).
Proof.
  intros Hc Hi score Hreal Hbefore Hafter.
  assert (argmax_at outputData n outWidth outHeight i = c) as Hsel;
    [|split; [done|]; by rewrite get_decode, Hsel by done].
  destruct (score c) as [s|] eqn:Hs; [|done]. simpl in Hreal.
  pose proof (SFltb_not_nan_r _ _ Hreal) as Hsnan.
  destruct (argmax_at_cases outputData outWidth outHeight n i)
    as [[_ Hnone]|(Hr & m & Hm & Hmreal & Hmax & Hlow)].
  - specialize (Hnone c Hc). fold score in Hnone. rewrite Hs in Hnone.
    simpl in Hnone. congruence.
  - set (sel := argmax_at outputData n outWidth outHeight i) in *.
    pose proof (SFltb_not_nan_r _ _ Hmreal) as Hmnan.
    destruct (Z.lt_trichotomy sel c) as [Hlt|[Heq|Hgt]]; [|done|].
    + specialize (Hbefore sel ltac:(lia)). specialize (Hmax c Hc).
      fold score in Hm, Hmax. rewrite Hm in Hbefore. rewrite Hs in Hmax.
      simpl in *.
      by rewrite (SFleb_total m s) in Hbefore.
    + specialize (Hafter sel ltac:(lia)). specialize (Hlow c ltac:(lia)).
      fold score in Hm, Hlow. rewrite Hm in Hafter. rewrite Hs in Hlow.
      simpl in *.
      by rewrite (SFleb_total s m) in Hlow.
Qed.

Lemma decode_first_maximal_witness :
  argmax_at (outputData wall_then_floor) 4 2 1 1 = 3 ∧
  get (decode (outputData wall_then_floor) 4 2 1) 1 = Some (3 mod 256).
Proof.
  apply (decode_first_maximal (outputData wall_then_floor) 4 2 1 1 3);
    [lia | lia | reflexivity | |].
  - intros c' Hc'.
    assert (c' = 0 ∨ c' = 1 ∨ c' = 2) as [-> | [-> | ->]] by lia; reflexivity.
  - intros c' Hc'. lia.
Defined.

(** X8. A pixel at which no score is a number above [-Infinity] (each is
    [-Infinity], [NaN] or missing from the data), and in particular every
    pixel when there are no classes, is decoded as class 0. *)
Theorem decode_defaults_to_zero outputData n outWidth outHeight i :
  0 ≤ i < outWidth * outHeight →
  (∀ c, 0 ≤ c < n →
     js_gt (score_at outputData outWidth outHeight i c) (Some neg_infinity)
     = false) →
  get (decode outputData n outWidth outHeight) i = Some 0.
Proof.
  intros Hi Hnone. rewrite get_decode by done.
  destruct (argmax_at_cases outputData outWidth outHeight n i)
    as [[-> _]|(Hr & m & Hm & Hmreal & _)]; [done|].
  specialize (Hnone _ Hr). rewrite Hm in Hnone. simpl in Hnone. congruence.
Qed.

Lemma decode_defaults_to_zero_witness :
  get (decode [S754_nan; S754_infinity true] 2 1 1) 0 = Some 0.
Proof.
  apply (decode_defaults_to_zero [S754_nan; S754_infinity true] 2 1 1 0); [lia|].
  intros c Hc. assert (c = 0 ∨ c = 1) as [-> | ->] by lia; reflexivity.
Defined.

(** X9. If some class has a score above [-Infinity] at a pixel, the class
    found there has one too: a [NaN], a missing score or [-Infinity] is
    never selected over a number. *)
Theorem decode_selects_a_number outputData n outWidth outHeight i c :
  0 ≤ c < n →
  js_gt (score_at outputData outWidth outHeight i c) (Some neg_infinity) = true →
  js_gt (score_at outputData outWidth outHeight i
           (argmax_at outputData n outWidth outHeight i))
        (Some neg_infinity) = true.
Proof.
  intros Hc Hreal.
  destruct (argmax_at_cases outputData outWidth outHeight n i)
    as [[_ Hnone]|(Hr & m & Hm & Hmreal & _)].
  - rewrite (Hnone c Hc) in Hreal. done.
  - by rewrite Hm.
Qed.

Lemma decode_selects_a_number_witness :
  js_gt (score_at [S754_nan; S754_zero false] 1 1 0
           (argmax_at [S754_nan; S754_zero false] 2 1 1 0))
        (Some neg_infinity) = true.
Proof.
  apply (decode_selects_a_number [S754_nan; S754_zero false] 2 1 1 0 1);
    [lia | reflexivity].
Defined.

(** ** The raster loops of the overlay *)

Lemma foldl_snoc_bind {A B} (g : B → list A) (l : list B) (acc : list A) :
  foldl (λ acc b, acc ++ g b) acc l = acc ++ (l ≫= g).
Proof.
  revert acc. induction l as [|b l IH]; intros acc; csimpl.
  - by rewrite app_nil_r.
  - by rewrite IH, app_assoc.
Qed.

Lemma fmap_bind_list {A B C} (f : B → C) (g : A → list B) (l : list A) :
  f <$> (l ≫= g) = l ≫= (λ a, f <$> g a).
Proof.
  induction l as [|a l IH]; csimpl; [done|]. by rewrite fmap_app, IH.
Qed.

Lemma wallFillRects_cells cleanWallMask maskWidth maskHeight canvasWidth canvasHeight :
  wallFillRects cleanWallMask maskWidth maskHeight canvasWidth canvasHeight
  = cell_rect (f64_div (f64_of_int canvasWidth) (f64_of_int maskWidth))
              (f64_div (f64_of_int canvasHeight) (f64_of_int maskHeight))
    <$> filled_cells cleanWallMask maskWidth maskHeight.
Proof.
  unfold wallFillRects, filled_cells, for_range.
  set (rect := cell_rect _ _).
  rewrite fmap_bind_list.
  rewrite <- (app_nil_l (_ ≫= _)), <- foldl_snoc_bind.
  apply foldl_agree. intros calls y _.
  rewrite fmap_bind_list, <- foldl_snoc_bind.
  apply foldl_agree. intros calls' x _.
  destruct (truthy _); [done|]. simpl. by rewrite app_nil_r.
Qed.

Lemma elem_of_filled_cells cleanWallMask maskWidth maskHeight x y :
  (x, y) ∈ filled_cells cleanWallMask maskWidth maskHeight ↔
  0 ≤ x < maskWidth ∧ 0 ≤ y < maskHeight ∧
  truthy (get cleanWallMask (y * maskWidth + x)) = true.
Proof.
  unfold filled_cells. rewrite list_elem_of_bind. split.
  - intros (y' & Hin & Hy'). apply list_elem_of_bind in Hin as (x' & Hin & Hx').
    apply elem_of_seqZ in Hy', Hx'.
    destruct (truthy _) eqn:Ht; [|by apply elem_of_nil in Hin].
    apply list_elem_of_singleton in Hin. injection Hin as -> ->.
    repeat split; try lia. done.
  - intros (Hx & Hy & Ht). exists y. split; [|apply elem_of_seqZ; lia].
    apply list_elem_of_bind. exists x. split; [|apply elem_of_seqZ; lia].
    rewrite Ht. by apply list_elem_of_singleton.
Qed.

Lemma NoDup_filled_cells cleanWallMask maskWidth maskHeight :
  NoDup (filled_cells cleanWallMask maskWidth maskHeight).
Proof.
  unfold filled_cells. apply NoDup_bind; [| |apply NoDup_seqZ].
  - intros y1 y2 cell _ _ H1 H2.
    apply list_elem_of_bind in H1 as (x1 & H1 & _).
    apply list_elem_of_bind in H2 as (x2 & H2 & _).
    destruct (truthy _); [|by apply elem_of_nil in H1].
    destruct (truthy _); [|by apply elem_of_nil in H2].
    apply list_elem_of_singleton in H1, H2. congruence.
  - intros y _. apply NoDup_bind; [| |apply NoDup_seqZ].
    + intros x1 x2 cell _ _ H1 H2.
      destruct (truthy _); [|by apply elem_of_nil in H1].
      destruct (truthy _); [|by apply elem_of_nil in H2].
      apply list_elem_of_singleton in H1, H2. congruence.
    + intros x _. destruct (truthy _); [apply NoDup_singleton|apply NoDup_nil_2].
Qed.

(** X10. The wall loop calls [fillRect] once for every cell of the grid
    whose mask cell is truthy and for no other cell; the rectangle of cell
    [(x, y)] is [(x * scaleX, y * scaleY, scaleX, scaleY)]. *)
Theorem wall_fill_once_per_set_cell cleanWallMask maskWidth maskHeight
    canvasWidth canvasHeight :
  ∃ cells,
    wallFillRects cleanWallMask maskWidth maskHeight canvasWidth canvasHeight
    = cell_rect (f64_div (f64_of_int canvasWidth) (f64_of_int maskWidth))
                (f64_div (f64_of_int canvasHeight) (f64_of_int maskHeight))
      <$> cells ∧
    NoDup cells ∧
    ∀ x y, (x, y) ∈ cells ↔
           0 ≤ x < maskWidth ∧ 0 ≤ y < maskHeight ∧
           truthy (get cleanWallMask (y * maskWidth + x)) = true.
Proof.
  exists (filled_cells cleanWallMask maskWidth maskHeight).
  split; [apply wallFillRects_cells|].
  split; [apply NoDup_filled_cells|]. apply elem_of_filled_cells.
Qed.

Lemma createImageData_positive sw sh :
  1 ≤ sw → 1 ≤ sh →
  createImageData sw sh = Some (replicate (Z.to_nat (4 * sw * sh)) 0).
Proof.
  intros Hw Hh. unfold createImageData.
  replace (sw =? 0) with false by lia. replace (sh =? 0) with false by lia.
  simpl. by rewrite !Z.abs_eq by lia.
Qed.

(** The alpha loop, started on any buffer of [4 * pixels] bytes. *)
Lemma alpha_loop_inv cleanFloorMask (pixels : Z) (data0 : list Z) :
  Z.of_nat (length data0) = 4 * pixels →
  let data :=
    for_range 0 (Z.of_nat (length cleanFloorMask)) (λ i data,
      let v := if truthy (get cleanFloorMask i) then 255 else 0 in
      set data (i * 4 + 3) v) data0 in
  length data = length data0 ∧
  ∀ i, 0 ≤ i < pixels →
    get data (4 * i + 3)
    = (if decide (i < Z.of_nat (length cleanFloorMask))
       then Some (if truthy (get cleanFloorMask i) then 255 else 0)
       else get data0 (4 * i + 3)) ∧
    ∀ c, 0 ≤ c < 3 → get data (4 * i + c) = get data0 (4 * i + c).
Proof.
  intros Hlen data. unfold data. clear data.
  pose proof (for_range_inv (λ n (data : list Z),
    length data = length data0 ∧
    ∀ i, 0 ≤ i < pixels →
      get data (4 * i + 3)
      = (if decide (i < n)
         then Some (if truthy (get cleanFloorMask i) then 255 else 0)
         else get data0 (4 * i + 3)) ∧
      ∀ c, 0 ≤ c < 3 → get data (4 * i + c) = get data0 (4 * i + c))
    0 (Z.of_nat (length cleanFloorMask))) as Hinv.
  simpl in Hinv. apply Hinv; clear Hinv; [lia| |].
  - split; [done|]. intros i Hi. split; [|done]. by rewrite decide_False by lia.
  - intros n data Hn [Hl Hget]. split; [by rewrite length_set|].
    intros i Hi. destruct (Hget i Hi) as [Ha Hc]. split.
    + destruct (decide (i = n)) as [->|Hne].
      * rewrite decide_True by lia.
        replace (n * 4 + 3) with (4 * n + 3) by lia.
        apply get_set_eq. lia.
      * rewrite get_set_ne by lia. rewrite Ha.
        destruct (decide (i < n)); [by rewrite decide_True by lia|].
        by rewrite decide_False by lia.
    + intros c Hc'. rewrite get_set_ne by lia. by apply Hc.
Qed.

(** X11. For a grid with at least one pixel, the alpha-mask image has four
    bytes per pixel; the alpha byte of pixel [i] is 255 when the mask cell
    [i] is truthy and 0 when it is zero or missing, and the three colour
    bytes of every pixel are 0. *)
Theorem floor_alpha_from_mask cleanFloorMask maskWidth maskHeight :
  1 ≤ maskWidth → 1 ≤ maskHeight →
  ∃ data,
    floorAlphaData cleanFloorMask maskWidth maskHeight = Some data ∧
    Z.of_nat (length data) = 4 * maskWidth * maskHeight ∧
    ∀ i, 0 ≤ i < maskWidth * maskHeight →
      get data (4 * i + 3)
      = Some (if truthy (get cleanFloorMask i) then 255 else 0) ∧
      ∀ c, 0 ≤ c < 3 → get data (4 * i + c) = Some 0.
Proof.
  intros Hw Hh. unfold floorAlphaData.
  rewrite createImageData_positive by done.
  set (data0 := replicate (Z.to_nat (4 * maskWidth * maskHeight)) 0).
  assert (Z.of_nat (length data0) = 4 * (maskWidth * maskHeight)) as Hlen0.
  { unfold data0. rewrite length_replicate. nia. }
  destruct (alpha_loop_inv cleanFloorMask (maskWidth * maskHeight) data0 Hlen0)
    as [Hl Hget].
  exists (for_range 0 (Z.of_nat (length cleanFloorMask)) (λ i data,
            let v := if truthy (get cleanFloorMask i) then 255 else 0 in
            set data (i * 4 + 3) v) data0).
  split; [reflexivity|]. split; [rewrite Hl; lia|].
  intros i Hi. destruct (Hget i Hi) as [Ha Hc]. split.
  - rewrite Ha. case_decide as Hin; [done|].
    rewrite (get_out_of_range cleanFloorMask) by lia. simpl.
    unfold data0. apply get_replicate. nia.
  - intros c Hc'. rewrite Hc by done. unfold data0. apply get_replicate. nia.
Qed.

Lemma floor_alpha_from_mask_witness :
  ∃ data,
    floorAlphaData [0;1;1;0;1] 2 2 = Some data ∧
    Z.of_nat (length data) = 4 * 2 * 2 ∧
    ∀ i, 0 ≤ i < 2 * 2 →
      get data (4 * i + 3)
      = Some (if truthy (get [0;1;1;0;1] i) then 255 else 0) ∧
      ∀ c, 0 ≤ c < 3 → get data (4 * i + c) = Some 0.
Proof. apply (floor_alpha_from_mask [0;1;1;0;1] 2 2); lia. Defined.

Example floor_alpha_small :
  floorAlphaData [0;1;1;0] 2 2
  = Some [0;0;0;0; 0;0;0;255; 0;0;0;255; 0;0;0;0].
Proof. reflexivity. Qed.

Example floor_alpha_empty_grid : floorAlphaData [] 0 0 = None.
Proof. reflexivity. Qed.

(** ** From scores to what is painted *)

Lemma truthy_is_set cell : truthy cell = true ↔ is_set cell.
Proof.
  unfold truthy, is_set. destruct cell as [v|].
  - rewrite negb_true_iff, Z.eqb_neq. split.
    + intros Hv. by exists v.
    + intros (v' & [= <-] & Hv). done.
  - split; [done|]. by intros (v & Hv & _).
Qed.

Lemma is_set_buildMask outputClasses target i :
  is_set (get (buildMask outputClasses target) i) ↔
  get outputClasses i = Some target.
Proof.
  destruct (decide (0 ≤ i < Z.of_nat (length outputClasses))) as [Hi|Hi].
  - rewrite get_buildMask by done.
    rewrite <- (strict_eq_true (get outputClasses i) target).
    destruct (strict_eq _ _); split; try done.
    + intros _. exists 1. split; [done|lia].
    + intros (v & [= <-] & Hv). lia.
  - rewrite (get_out_of_range outputClasses) by done.
    rewrite get_out_of_range by (by rewrite length_buildMask).
    split; [intros (v & Hv & _)|]; done.
Qed.

(** The repaired mask of class [target], cell by cell. *)
Lemma clean_mask_cell outputClasses target width height x y :
  Z.of_nat (length outputClasses) = width * height →
  0 ≤ x < width → 0 ≤ y < height →
  truthy (get (dilate (buildMask outputClasses target) width height)
            (y * width + x)) = true ↔
  ∃ x' y', adjacent width height x y x' y' ∧
           get outputClasses (y' * width + x') = Some target.
Proof.
  intros Hlen Hx Hy.
  pose proof (cell_index_range width height x y Hx Hy) as Hidx.
  rewrite truthy_is_set, is_set_dilate, length_buildMask.
  rewrite elem_of_mask_writes_cell by (by rewrite ?length_buildMask).
  unfold set_neighbour, adjacent. split.
  - intros (_ & x' & y' & Hx' & Hy' & Hdx & Hdy & Hset).
    exists x', y'. split; [done|]. by apply is_set_buildMask.
  - intros (x' & y' & (Hx' & Hy' & Hdx & Hdy) & Hc). split; [lia|].
    exists x', y'. repeat split; try lia. by apply is_set_buildMask.
Qed.

Lemma clean_mask_unset outputClasses target width height k :
  width * height ≤ Z.of_nat (length outputClasses) →
  (∀ i, get outputClasses i ≠ Some target) →
  truthy (get (dilate (buildMask outputClasses target) width height) k) = false.
Proof.
  intros Hlen Hnone.
  destruct (truthy _) eqn:Ht; [|done]. exfalso.
  apply truthy_is_set, is_set_dilate in Ht as [_ Hin].
  apply elem_of_mask_writes in Hin as (x & y & Hx & Hy & Hnz & _).
  pose proof (cell_index_range width height x y Hx Hy) as Hidx.
  apply is_zero_false_iff in Hnz; [|rewrite length_buildMask; lia].
  apply is_set_buildMask in Hnz. by apply (Hnone (y * width + x)).
Qed.

(** X12. With 1 to 256 classes, a cell of the grid is in the repaired
    wall mask exactly when some pixel next to it (itself included) is
    decoded as class 0, and in the repaired floor mask exactly when some
    pixel next to it is decoded as class 3. *)
Theorem clean_masks_from_scores outputData n outWidth outHeight x y :
  1 ≤ n ≤ 256 →
  0 ≤ x < outWidth → 0 ≤ y < outHeight →
  let classIds := decode outputData n outWidth outHeight in
  let found x' y' :=
    argmax_at outputData n outWidth outHeight (y' * outWidth + x') in
  (truthy (get (dilate (wallMask classIds) outWidth outHeight)
             (y * outWidth + x)) = true ↔
     ∃ x' y', adjacent outWidth outHeight x y x' y' ∧ found x' y' = 0) ∧
  (truthy (get (dilate (floorMask classIds) outWidth outHeight)
             (y * outWidth + x)) = true ↔
     ∃ x' y', adjacent outWidth outHeight x y x' y' ∧ found x' y' = 3).
Proof.
  intros Hn Hx Hy classIds found.
  assert (Z.of_nat (length classIds) = outWidth * outHeight) as Hlen.
  { unfold classIds. rewrite length_decode.
    assert (0 ≤ outWidth * outHeight) by (apply Z.mul_nonneg_nonneg; lia).
    lia. }
  assert (∀ target, 0 ≤ target < 256 → ∀ x' y',
            adjacent outWidth outHeight x y x' y' →
            get classIds (y' * outWidth + x') = Some target ↔
            found x' y' = target) as Hcell.
  { intros target Ht x' y' (Hx' & Hy' & _).
    pose proof (cell_index_range outWidth outHeight x' y' Hx' Hy') as Hidx.
    unfold classIds. rewrite get_decode by done. fold (found x' y').
    pose proof (argmax_at_range outputData outWidth outHeight n
                  (y' * outWidth + x') ltac:(lia)) as Hr.
    fold (found x' y') in Hr.
    unfold to_uint8. rewrite Z.mod_small by lia. split; congruence. }
  unfold wallMask, floorMask, wall_class, floor_class.
  rewrite !clean_mask_cell by done.
  pose proof (Hcell 0 ltac:(lia)) as Hwall.
  pose proof (Hcell 3 ltac:(lia)) as Hfloor.
  split; split; intros (x' & y' & Hadj & Hc); exists x', y';
    (split; [done|]); first [by apply Hwall | by apply Hfloor].
Qed.

Lemma clean_masks_from_scores_witness :
  let classIds := decode (outputData wall_then_floor) 4 2 1 in
  let found x' y' :=
    argmax_at (outputData wall_then_floor) 4 2 1 (y' * 2 + x') in
  (truthy (get (dilate (wallMask classIds) 2 1) (0 * 2 + 1)) = true ↔
     ∃ x' y', adjacent 2 1 1 0 x' y' ∧ found x' y' = 0) ∧
  (truthy (get (dilate (floorMask classIds) 2 1) (0 * 2 + 1)) = true ↔
     ∃ x' y', adjacent 2 1 1 0 x' y' ∧ found x' y' = 3).
Proof.
  apply (clean_masks_from_scores (outputData wall_then_floor) 4 2 1 1 0); lia.
Defined.

(** X13. A grid that covers the mask area and holds no class 0 leads to no
    [fillRect] call at all in the wall loop. *)
Theorem no_wall_pixel_no_fill outputClasses maskWidth maskHeight
    canvasWidth canvasHeight :
  maskWidth * maskHeight ≤ Z.of_nat (length outputClasses) →
  (∀ i, get outputClasses i ≠ Some 0) →
  wallFillRects (dilate (wallMask outputClasses) maskWidth maskHeight)
    maskWidth maskHeight canvasWidth canvasHeight = [].
Proof.
  intros Hlen Hnone. rewrite wallFillRects_cells.
  rewrite (elem_of_nil_inv (filled_cells _ _ _)); [done|].
  intros [x y] (_ & _ & Ht)%elem_of_filled_cells.
  unfold wallMask, wall_class in Ht.
  by rewrite clean_mask_unset in Ht.
Qed.

Lemma no_wall_pixel_no_fill_witness :
  wallFillRects (dilate (wallMask [3;2;3;1]) 2 2) 2 2 512 512 = [].
Proof.
  apply (no_wall_pixel_no_fill [3;2;3;1] 2 2 512 512); [simpl; lia|].
  intros i Hi. unfold get in Hi. case_decide; [|done].
  destruct (Z.to_nat i) as [|[|[|[|k]]]]; done.
Defined.

(** X14. For a grid with at least one pixel that covers the mask area and
    holds no class 3, every alpha byte of the floor's alpha-mask image is 0:
    the floor layer is fully transparent. *)
Theorem no_floor_pixel_transparent outputClasses maskWidth maskHeight :
  1 ≤ maskWidth → 1 ≤ maskHeight →
  maskWidth * maskHeight ≤ Z.of_nat (length outputClasses) →
  (∀ i, get outputClasses i ≠ Some 3) →
  ∃ data,
    floorAlphaData (dilate (floorMask outputClasses) maskWidth maskHeight)
      maskWidth maskHeight = Some data ∧
    Forall (λ b, b = 0) data.
Proof.
  intros Hw Hh Hlen Hnone. unfold floorAlphaData.
  rewrite createImageData_positive by done.
  set (mask := dilate (floorMask outputClasses) maskWidth maskHeight).
  set (data0 := replicate (Z.to_nat (4 * maskWidth * maskHeight)) 0).
  assert (Z.of_nat (length data0) = 4 * (maskWidth * maskHeight)) as Hlen0.
  { unfold data0. rewrite length_replicate. nia. }
  destruct (alpha_loop_inv mask (maskWidth * maskHeight) data0 Hlen0)
    as [Hl Hget].
  exists (for_range 0 (Z.of_nat (length mask)) (λ i data,
            let v := if truthy (get mask i) then 255 else 0 in
            set data (i * 4 + 3) v) data0).
  split; [reflexivity|]. apply Forall_lookup. intros k b Hk.
  pose proof (lookup_lt_Some _ _ _ Hk) as Hklt. rewrite Hl in Hklt.
  destruct (index_as_cell 4 (maskWidth * maskHeight) (Z.of_nat k))
    as (c & i & Hc & Hi & Hkic); [lia..|].
  rewrite <- get_of_nat, Hkic in Hk.
  replace (i * 4 + c) with (4 * i + c) in Hk by lia.
  destruct (Hget i Hi) as [Ha Hcol].
  assert (get data0 (4 * i + c) = Some 0) as H0.
  { unfold data0. apply get_replicate. nia. }
  destruct (decide (c = 3)) as [->|Hc3].
  - assert (truthy (get mask i) = false) as Ht
      by (by apply clean_mask_unset).
    rewrite Ht in Ha. rewrite Ha in Hk.
    destruct (decide (i < Z.of_nat (length mask))); congruence.
  - rewrite Hcol in Hk by lia. congruence.
Qed.

Lemma no_floor_pixel_transparent_witness :
  ∃ data,
    floorAlphaData (dilate (floorMask [0;2]) 2 1) 2 1 = Some data ∧
    Forall (λ b, b = 0) data.
Proof.
  apply (no_floor_pixel_transparent [0;2] 2 1); [lia | lia | simpl; lia |].
  intros i Hi. unfold get in Hi. case_decide; [|done].
  destruct (Z.to_nat i) as [|[|k]]; done.
Defined.

(** ** More on preprocessing *)

(** X15. A colour byte that is missing from a too short buffer becomes
    [NaN] in the tensor. *)
Theorem preprocessImage_missing_byte data i c :
  0 ≤ i < 512 * 512 → 0 ≤ c < 3 →
  Z.of_nat (length data) ≤ 4 * i + c →
  get (preprocessImage data) (c * 512 * 512 + i) = Some S754_nan.
Proof.
  intros Hi Hc Hshort. unfold preprocessImage.
  destruct (preprocess_planes_inv 512 512 data ltac:(lia)) as [_ Hget].
  replace (c * 512 * 512 + i) with (c * (512 * 512) + i) by lia.
  rewrite Hget by lia.
  by rewrite get_out_of_range by lia.
Qed.

Lemma preprocessImage_missing_byte_witness :
  get (preprocessImage [255; 255]) (2 * 512 * 512 + 0) = Some S754_nan.
Proof.
  apply (preprocessImage_missing_byte [255; 255] 0 2); [lia | lia | simpl; lia].
Defined.

Lemma normalize_byte_step b :
  0 ≤ b < 255 → SFltb (normalize_byte b) (normalize_byte (b + 1)) = true.
Proof.
  intros Hb.
  assert (forallb (λ b, SFltb (normalize_byte b) (normalize_byte (b + 1)))
            (seqZ 0 255) = true) as Hall by (vm_compute; done).
  rewrite forallb_forall in Hall.
  apply (Hall b), list_elem_of_In, elem_of_seqZ. lia.
Qed.

Lemma normalize_byte_increasing b b' :
  0 ≤ b → b < b' → b' ≤ 255 →
  SFltb (normalize_byte b) (normalize_byte b') = true.
Proof.
  intros Hb Hlt Hb'.
  assert (∀ d : nat, b + 1 + Z.of_nat d ≤ 255 →
            SFltb (normalize_byte b) (normalize_byte (b + 1 + Z.of_nat d)) = true)
    as Hd.
  { induction d as [|d IH]; intros Hle.
    - rewrite Z.add_0_r. apply normalize_byte_step. lia.
    - apply (SFltb_trans _ (normalize_byte (b + 1 + Z.of_nat d))).
      + apply IH. lia.
      + replace (b + 1 + Z.of_nat (S d)) with (b + 1 + Z.of_nat d + 1) by lia.
        apply normalize_byte_step. lia. }
  specialize (Hd (Z.to_nat (b' - b - 1))).
  replace (b + 1 + Z.of_nat (Z.to_nat (b' - b - 1))) with b' in Hd by lia.
  apply Hd. lia.
Qed.

(** X16. Normalisation keeps the order of colour bytes: of two colour bytes
    of the buffer, the smaller one is stored as a strictly smaller number. So
    distinct byte values never collapse to one tensor value. *)
Theorem preprocessImage_order_preserving data i c i' c' b b' :
  0 ≤ i < 512 * 512 → 0 ≤ c < 3 →
  0 ≤ i' < 512 * 512 → 0 ≤ c' < 3 →
  get data (4 * i + c) = Some b →
  get data (4 * i' + c') = Some b' →
  0 ≤ b → b < b' → b' ≤ 255 →
  ∃ v v',
    get (preprocessImage data) (c * 512 * 512 + i) = Some v ∧
    get (preprocessImage data) (c' * 512 * 512 + i') = Some v' ∧
    SFltb v v' = true.
Proof.
  intros Hi Hc Hi' Hc' Hb Hb' Hlo Hlt Hhi. unfold preprocessImage.
  destruct (preprocess_planes_inv 512 512 data ltac:(lia)) as [_ Hget].
  exists (normalize_byte b), (normalize_byte b'). split; [|split].
  - replace (c * 512 * 512 + i) with (c * (512 * 512) + i) by lia.
    rewrite Hget by lia. replace (i * 4 + c) with (4 * i + c) by lia.
    by rewrite Hb.
  - replace (c' * 512 * 512 + i') with (c' * (512 * 512) + i') by lia.
    rewrite Hget by lia. replace (i' * 4 + c') with (4 * i' + c') by lia.
    by rewrite Hb'.
  - by apply normalize_byte_increasing.
Qed.

Lemma preprocessImage_order_preserving_witness :
  ∃ v v',
    get (preprocessImage [254; 255]) (0 * 512 * 512 + 0) = Some v ∧
    get (preprocessImage [254; 255]) (1 * 512 * 512 + 0) = Some v' ∧
    SFltb v v' = true.
Proof.
  apply (preprocessImage_order_preserving [254; 255] 0 0 0 1 254 255);
    first [lia | reflexivity].
Defined.

(** ** More on a run *)

Section RunOutcomes.
Context (world : World).

(** X17. Without a session (the backend is missing, or creating the session
    fails) a run leaves the canvas as it was; it completes quietly in the
    first case and rejects in the second. *)
Theorem run_without_session data ctx :
  wasm_available world = false ∨ create_session world = Rejected →
  (run world data ctx).1 = ctx ∧
  (completes (run world data ctx) = true ↔ wasm_available world = false).
Proof.
  intros Hno.
  unfold run, loadModel, await, mbind, mret, task_bind, task_ret.
  destruct (wasm_available world); simpl.
  - destruct Hno as [Hno|Hno]; [done|]. by rewrite Hno.
  - done.
Qed.

Lemma run_with_session data ctx :
  wasm_available world = true →
  create_session world = Fulfilled tt →
  run world data ctx
  = match session_run world (preprocessImage data) with
    | Fulfilled output =>
        drawSegmentationOverlay world
          (decode (outputData output) (numClasses output)
             (outWidth output) (outHeight output))
          (outWidth output) (outHeight output) [DrawImage InputImage]
    | Rejected => ([DrawImage InputImage], Rejected)
    end.
Proof.
  intros Hwasm Hsession.
  unfold run, loadModel, await, draw, resize, mbind, mret, task_bind, task_ret.
  rewrite Hwasm, Hsession. simpl.
  by destruct (session_run world (preprocessImage data)).
Qed.

Lemma overlay_outcomes outputClasses maskWidth maskHeight ctx :
  drawSegmentationOverlay world outputClasses maskWidth maskHeight ctx
  = match load_image world "/Textures/Floor.webp",
          load_image world "/Textures/Floor1.jpg" with
    | Fulfilled wallTexture, Fulfilled floorTexture =>
        (ctx ++ [DrawImage (WallLayer wallTexture
                   (dilate (wallMask outputClasses) maskWidth maskHeight));
                 DrawImage (FloorLayer floorTexture
                   (dilate (floorMask outputClasses) maskWidth maskHeight))],
         Fulfilled tt)
    | _, _ => (ctx, Rejected)
    end.
Proof.
  unfold drawSegmentationOverlay, loadTexture, await, draw, mbind, task_bind.
  destruct (load_image world "/Textures/Floor.webp"); [|done].
  destruct (load_image world "/Textures/Floor1.jpg"); [|done].
  by rewrite <- app_assoc.
Qed.


(** X19. With a session, nothing drawn before the run survives it: the
    outcome and the final canvas do not depend on what the canvas held. *)
Theorem run_forgets_canvas data ctx ctx' :
  wasm_available world = true →
  create_session world = Fulfilled tt →
  run world data ctx = run world data ctx'.
Proof. intros Hwasm Hsession. by rewrite !run_with_session. Qed.

(** X20. With a session, a failed inference or a failed wall texture
    rejects the run, whatever the floor texture does; the canvas then holds
    the input image alone. *)
Theorem run_rejects_early data ctx :
  wasm_available world = true →
  create_session world = Fulfilled tt →
  session_run world (preprocessImage data) = Rejected ∨
  load_image world "/Textures/Floor.webp" = Rejected →
  run world data ctx = ([DrawImage InputImage], Rejected).
Proof.
  intros Hwasm Hsession Hfail. rewrite run_with_session by done.
  destruct (session_run world (preprocessImage data)) as [output|]; [|done].
  destruct Hfail as [Hfail|Hfail]; [done|].
  by rewrite overlay_outcomes, Hfail.
Qed.

End RunOutcomes.

Lemma run_without_session_witness :
  (run session_fails black_image [ClearRect]).1 = [ClearRect] ∧
  (completes (run session_fails black_image [ClearRect]) = true ↔
   wasm_available session_fails = false).
Proof. apply (run_without_session session_fails). by right. Defined.


Lemma run_forgets_canvas_witness :
  run inference_fails black_image [ClearRect] = run inference_fails black_image [].
Proof. apply (run_forgets_canvas inference_fails); reflexivity. Defined.

Lemma run_rejects_early_witness :
  run wall_texture_fails black_image [] = ([DrawImage InputImage], Rejected).
Proof.
  apply (run_rejects_early wall_texture_fails); [reflexivity | reflexivity |].
  by right.
Defined.
